(** * Lockify vault: encryption codec, session handlers and vault hydration

    A shallow embedding of the vault core of the application:
    - [utils/crypto.ts]: key derivation and the envelope codec
      ([deriveKey], [encryptData], [decryptData], the base64 helpers);
    - [services/db.ts]: the Firestore-backed record store;
    - [App.tsx]: the session handlers ([unlockVault], [loadVaultItems],
      [handleSaveItem], [handleDeleteItem], [handleLogout] and the
      authentication listener).

    The handlers are [async] functions.  They are embedded as trees of
    effects ([Async]): every [await] of a platform promise, every call of a
    nondeterministic built-in, every React state update and every console
    line is a node, in the order the source performs them.  Two semantics
    run the trees against an environment [Env] (the browser and the remote
    services): [exec] runs one call to completion, [dispatch] runs a pool of
    pending calls one settlement at a time, so that other events can fall
    between two awaits of a call. *)

From Stdlib Require Import ZArith NArith List Lia.
From Stdlib.Strings Require Import String Ascii Byte.
From stdpp Require Import base option list strings gmap sorting pretty.

Local Open Scope string_scope.
Local Open Scope list_scope.
Local Open Scope Z_scope.

(** ** Data model ([types.ts]) *)

Definition bytes : Type := list byte.

#[global] Instance byte_eq_decision : EqDecision byte := Byte.byte_eq_dec.

(** A JavaScript exception value: an [Error] with its message. *)
Inductive Error : Type := mkError (message : string).

(** How an evaluation or a promise ends: normally with a value, or with a
    thrown exception (a rejected promise throws at the [await]). *)
Inductive Completion (A : Type) : Type :=
| Normal (a : A)
| Thrown (e : Error).
Arguments Normal {A} a.
Arguments Thrown {A} e.

Inductive ItemType : Type := LOGIN | NOTE | CARD | KEY.

(** [interface VaultItem].  [number] fields hold integer millisecond
    timestamps and are modelled in [Z]. *)
Module VaultItem.
Record t : Type := mk {
  id : string;
  type : ItemType;
  title : string;
  username : option string;
  password : option string;
  url : option string;
  notes : option string;
  folder : option string;
  favorite : option bool;
  createdAt : Z;
  updatedAt : Z;
}.

(** [{ ...data, id: i }] *)
Definition with_id (data : t) (i : string) : t :=
  mk i (type data) (title data) (username data) (password data) (url data)
     (notes data) (folder data) (favorite data) (createdAt data) (updatedAt data).
End VaultItem.

(** [Partial<VaultItem>]: every field may be absent. *)
Module PartialVaultItem.
Record t : Type := mk {
  id : option string;
  type : option ItemType;
  title : option string;
  username : option string;
  password : option string;
  url : option string;
  notes : option string;
  folder : option string;
  favorite : option bool;
  createdAt : option Z;
  updatedAt : option Z;
}.

(** [{ ...data, id: i }] *)
Definition with_id (data : t) (i : string) : t :=
  mk (Some i) (type data) (title data) (username data) (password data) (url data)
     (notes data) (folder data) (favorite data) (createdAt data) (updatedAt data).

(** A [VaultItem], seen as an object that lacks none of the required
    fields. *)
Definition of_record (v : VaultItem.t) : t :=
  mk (Some (VaultItem.id v)) (Some (VaultItem.type v)) (Some (VaultItem.title v))
     (VaultItem.username v) (VaultItem.password v) (VaultItem.url v) (VaultItem.notes v)
     (VaultItem.folder v) (VaultItem.favorite v)
     (Some (VaultItem.createdAt v)) (Some (VaultItem.updatedAt v)).
End PartialVaultItem.

(** [interface EncryptedVaultItem] *)
Module EncryptedVaultItem.
Record t : Type := mk {
  id : string;
  data : string;
  iv : string;
  salt : string;
  ownerId : string;
  updatedAt : Z;
}.
End EncryptedVaultItem.

Module UserProfile.
Record t : Type := mk {
  uid : string;
  email : option string;
  displayName : option string;
}.
End UserProfile.

(** The user object Firebase Auth hands to the listener. *)
Module FirebaseUser.
Record t : Type := mk {
  uid : string;
  email : option string;
  displayName : option string;
}.
End FirebaseUser.

Inductive ToastType : Type := success | error.

Module Toast.
Record t : Type := mk {
  id : string;
  message : string;
  type : ToastType;
}.
End Toast.

(** A Web Crypto [CryptoKey]: the algorithm it is for and its key material. *)
Inductive KeyAlgorithm : Type := PBKDF2 | AES_GCM.

Record CryptoKey : Type := mkCryptoKey {
  algorithm : KeyAlgorithm;
  material : bytes;
}.

(** ** React state of [App] ([useState] cells the vault handlers touch) *)

Record AppState : Type := mkAppState {
  user : option UserProfile.t;
  authLoading : bool;
  masterKey : option CryptoKey;
  isVaultLocked : bool;
  items : list VaultItem.t;
  loadingItems : bool;
  toasts : list Toast.t;
  isModalOpen : bool;
  editingItem : option VaultItem.t;
}.

Definition setUser (v : option UserProfile.t) (s : AppState) : AppState :=
  mkAppState v (authLoading s) (masterKey s) (isVaultLocked s) (items s)
             (loadingItems s) (toasts s) (isModalOpen s) (editingItem s).
Definition setAuthLoading (v : bool) (s : AppState) : AppState :=
  mkAppState (user s) v (masterKey s) (isVaultLocked s) (items s)
             (loadingItems s) (toasts s) (isModalOpen s) (editingItem s).
Definition setMasterKey (v : option CryptoKey) (s : AppState) : AppState :=
  mkAppState (user s) (authLoading s) v (isVaultLocked s) (items s)
             (loadingItems s) (toasts s) (isModalOpen s) (editingItem s).
Definition setIsVaultLocked (v : bool) (s : AppState) : AppState :=
  mkAppState (user s) (authLoading s) (masterKey s) v (items s)
             (loadingItems s) (toasts s) (isModalOpen s) (editingItem s).
(** [setItems] and [setToasts] take the updater form [prev => ...]; a plain
    value [v] is the updater [fun _ => v]. *)
Definition setItems (f : list VaultItem.t -> list VaultItem.t) (s : AppState) : AppState :=
  mkAppState (user s) (authLoading s) (masterKey s) (isVaultLocked s) (f (items s))
             (loadingItems s) (toasts s) (isModalOpen s) (editingItem s).
Definition setLoadingItems (v : bool) (s : AppState) : AppState :=
  mkAppState (user s) (authLoading s) (masterKey s) (isVaultLocked s) (items s)
             v (toasts s) (isModalOpen s) (editingItem s).
Definition setToasts (f : list Toast.t -> list Toast.t) (s : AppState) : AppState :=
  mkAppState (user s) (authLoading s) (masterKey s) (isVaultLocked s) (items s)
             (loadingItems s) (f (toasts s)) (isModalOpen s) (editingItem s).
Definition setIsModalOpen (v : bool) (s : AppState) : AppState :=
  mkAppState (user s) (authLoading s) (masterKey s) (isVaultLocked s) (items s)
             (loadingItems s) (toasts s) v (editingItem s).
Definition setEditingItem (v : option VaultItem.t) (s : AppState) : AppState :=
  mkAppState (user s) (authLoading s) (masterKey s) (isVaultLocked s) (items s)
             (loadingItems s) (toasts s) (isModalOpen s) v.

(** ** Effects *)

(** Promise-returning platform operations: an [await] suspends the caller
    until the operation settles. *)
Inductive Op : Type -> Type :=
| SubtleImportKey (raw : bytes) : Op CryptoKey
| SubtleDeriveKey (salt : bytes) (iterations : N) (baseKey : CryptoKey) : Op CryptoKey
| SubtleEncrypt (iv : bytes) (key : CryptoKey) (plaintext : bytes) : Op bytes
| SubtleDecrypt (iv : bytes) (key : CryptoKey) (ciphertext : bytes) : Op bytes
| GetDocs (collection : string) (ownerId : string) : Op (list EncryptedVaultItem.t)
| SetDoc (collection : string) (docId : string) (item : EncryptedVaultItem.t) : Op unit
| DeleteDoc (collection : string) (docId : string) : Op unit
| SignOut : Op unit
| Timeout (ms : N) : Op unit.

(** Synchronous built-ins whose answer the program does not determine. *)
Inductive Builtin : Type -> Type :=
| GetRandomValues (n : nat) : Builtin bytes
| RandomUUID : Builtin string
| DateNow : Builtin Z
| Confirm (question : string) : Builtin bool.

(** An [async] function body.  [Spawn] is a call of an async function whose
    promise is dropped (not awaited), or a [setTimeout] callback. *)
Inductive Async (A : Type) : Type :=
| Return (a : A)
| Throw (e : Error)
| Call {X : Type} (b : Builtin X) (k : X -> Async A)
| Await {X : Type} (op : Op X) (k : Completion X -> Async A)
| SetState (f : AppState -> AppState) (k : Async A)
| ConsoleError (line : string) (k : Async A)
| Spawn (child : Async unit) (k : Async A).
Arguments Return {A} a.
Arguments Throw {A} e.
Arguments Call {A X} b k.
Arguments Await {A X} op k.
Arguments SetState {A} f k.
Arguments ConsoleError {A} line k.
Arguments Spawn {A} child k.

Fixpoint bind {A B : Type} (p : Async A) (f : A -> Async B) : Async B :=
  match p with
  | Return a => f a
  | Throw e => Throw e
  | Call b k => Call b (fun x => bind (k x) f)
  | Await op k => Await op (fun r => bind (k r) f)
  | SetState g k => SetState g (bind k f)
  | ConsoleError l k => ConsoleError l (bind k f)
  | Spawn c k => Spawn c (bind k f)
  end.

(** [try { p } catch (e) { h e }] *)
Fixpoint try_catch {A : Type} (p : Async A) (h : Error -> Async A) : Async A :=
  match p with
  | Return a => Return a
  | Throw e => h e
  | Call b k => Call b (fun x => try_catch (k x) h)
  | Await op k => Await op (fun r => try_catch (k r) h)
  | SetState g k => SetState g (try_catch k h)
  | ConsoleError l k => ConsoleError l (try_catch k h)
  | Spawn c k => Spawn c (try_catch k h)
  end.

(** [try { p } finally { c }] *)
Fixpoint finally {A : Type} (p : Async A) (c : Async unit) : Async A :=
  match p with
  | Return a => bind c (fun _ => Return a)
  | Throw e => bind c (fun _ => Throw e)
  | Call b k => Call b (fun x => finally (k x) c)
  | Await op k => Await op (fun r => finally (k r) c)
  | SetState g k => SetState g (finally k c)
  | ConsoleError l k => ConsoleError l (finally k c)
  | Spawn ch k => Spawn ch (finally k c)
  end.

Declare Scope async_scope.
Delimit Scope async_scope with async.
Bind Scope async_scope with Async.
Notation "'let*' x ':=' p 'in' k" := (bind p (fun x => k))
  (at level 10, x name, p at level 100, k at level 200) : async_scope.
Notation "p ';;' k" := (bind p (fun _ => k))
  (at level 100, k at level 200, right associativity) : async_scope.

Definition call {X : Type} (b : Builtin X) : Async X := Call b Return.
Definition of_completion {X : Type} (r : Completion X) : Async X :=
  match r with Normal x => Return x | Thrown e => Throw e end.
Definition await {X : Type} (op : Op X) : Async X := Await op of_completion.
Definition setState (f : AppState -> AppState) : Async unit := SetState f (Return tt).
Definition console_error (line : string) : Async unit := ConsoleError line (Return tt).
Definition spawn (child : Async unit) : Async unit := Spawn child (Return tt).

(** ** The environment: browser built-ins and remote services *)

(** The deterministic built-ins are functions; the answers the program does
    not determine (random bytes, the clock, dialogs, the state of the
    network) are indexed by [tick], the number of such calls made so far. *)
Record Env : Type := mkEnv {
  (* ECMAScript and WHATWG built-ins.  [JSON_parse] is [JSON.parse] in a
     session whose plaintexts are [VaultItem]s: a text denotes a record or
     does not parse.  Texts that denote other values are run with
     [decryptData_any] below. *)
  JSON_stringify : VaultItem.t -> string;
  JSON_parse : string -> Completion VaultItem.t;
  TextEncoder_encode : string -> bytes;
  TextDecoder_decode : bytes -> string;
  btoa : string -> string;
  atob : string -> Completion string;
  (* window.crypto.subtle *)
  subtle_importKey : bytes -> Completion CryptoKey;
  subtle_deriveKey : bytes -> N -> CryptoKey -> Completion CryptoKey;
  subtle_encrypt : bytes -> CryptoKey -> bytes -> Completion bytes;
  subtle_decrypt : bytes -> CryptoKey -> bytes -> Completion bytes;
  (* nondeterminism *)
  entropy : nat -> nat -> byte;
  uuid : nat -> string;
  clock : nat -> Z;
  confirm_answer : nat -> bool;
  firestore_fault : nat -> option Error;
  firestore_query : nat -> string -> string -> list EncryptedVaultItem.t;
  auth_fault : nat -> option Error;
}.

(** A call suspended at an [await]. *)
Inductive Task : Type :=
| Blocked {X : Type} (op : Op X) (k : Completion X -> Async unit).

(** The running page: React state, the documents this session wrote to the
    remote collection, the console, the tick counter and the suspended
    calls. *)
Record World : Type := mkWorld {
  app : AppState;
  firestore : gmap string EncryptedVaultItem.t;
  console : list string;
  tick : nat;
  pending : list Task;
}.

Definition set_app (f : AppState -> AppState) (w : World) : World :=
  mkWorld (f (app w)) (firestore w) (console w) (tick w) (pending w).
Definition set_firestore (f : gmap string EncryptedVaultItem.t -> gmap string EncryptedVaultItem.t)
    (w : World) : World :=
  mkWorld (app w) (f (firestore w)) (console w) (tick w) (pending w).
Definition log_line (l : string) (w : World) : World :=
  mkWorld (app w) (firestore w) (console w ++ [l]) (tick w) (pending w).
Definition tock (w : World) : World :=
  mkWorld (app w) (firestore w) (console w) (S (tick w)) (pending w).
Definition set_pending (f : list Task -> list Task) (w : World) : World :=
  mkWorld (app w) (firestore w) (console w) (tick w) (f (pending w)).

Definition builtin (env : Env) {X : Type} (b : Builtin X) (t : nat) : X :=
  match b in Builtin X return X with
  | GetRandomValues n => map (entropy env t) (seq 0 n)
  | RandomUUID => uuid env t
  | DateNow => clock env t
  | Confirm _ => confirm_answer env t
  end.

Definition faulty {X : Type} (fault : option Error) (x : X) : Completion X :=
  match fault with Some e => Thrown e | None => Normal x end.

(** Settlement of an awaited operation.  The Web Crypto operations are
    functions of their arguments.  A Firestore operation fails when the
    environment says so and otherwise takes effect: a write lands in the
    collection, a query is answered by the remote service. *)
Definition settle (env : Env) {X : Type} (op : Op X) (w : World) : Completion X * World :=
  match op in Op X return Completion X * World with
  | SubtleImportKey raw => (subtle_importKey env raw, w)
  | SubtleDeriveKey salt iterations baseKey =>
      (subtle_deriveKey env salt iterations baseKey, w)
  | SubtleEncrypt iv key plaintext => (subtle_encrypt env iv key plaintext, w)
  | SubtleDecrypt iv key ciphertext => (subtle_decrypt env iv key ciphertext, w)
  | GetDocs c o =>
      (faulty (firestore_fault env (tick w)) (firestore_query env (tick w) c o), tock w)
  | SetDoc _ i item =>
      match firestore_fault env (tick w) with
      | Some e => (Thrown e, tock w)
      | None => (Normal tt, tock (set_firestore (insert i item) w))
      end
  | DeleteDoc _ i =>
      match firestore_fault env (tick w) with
      | Some e => (Thrown e, tock w)
      | None => (Normal tt, tock (set_firestore (delete i) w))
      end
  | SignOut => (faulty (auth_fault env (tick w)) tt, tock w)
  | Timeout _ => (Normal tt, w)
  end.

(** Where a call stands after running up to its next [await]. *)
Inductive Step (A : Type) : Type :=
| Finished (r : Completion A)
| Suspended {X : Type} (op : Op X) (k : Completion X -> Async A).
Arguments Finished {A} r.
Arguments Suspended {A X} op k.

Definition enqueue (s : Step unit) (w : World) : World :=
  match s with
  | Finished _ => w
  | Suspended op k => set_pending (fun q => q ++ [Blocked op k]) w
  end.

(** Run a call synchronously up to its first [await]. *)
Fixpoint advance (env : Env) {A : Type} (p : Async A) (w : World) : World * Step A :=
  match p with
  | Return a => (w, Finished (Normal a))
  | Throw e => (w, Finished (Thrown e))
  | Call b k => advance env (k (builtin env b (tick w))) (tock w)
  | Await op k => (w, Suspended op k)
  | SetState f k => advance env k (set_app f w)
  | ConsoleError l k => advance env k (log_line l w)
  | Spawn c k =>
      let '(w1, s) := advance env c w in
      advance env k (enqueue s w1)
  end.

Definition start (env : Env) (p : Async unit) (w : World) : World :=
  let '(w1, s) := advance env p w in enqueue s w1.

(** Run a call to completion, every awaited operation settling at once. *)
Fixpoint exec (env : Env) {A : Type} (p : Async A) (w : World) : World * Completion A :=
  match p with
  | Return a => (w, Normal a)
  | Throw e => (w, Thrown e)
  | Call b k => exec env (k (builtin env b (tick w))) (tock w)
  | Await op k => let '(r, w1) := settle env op w in exec env (k r) w1
  | SetState f k => exec env k (set_app f w)
  | ConsoleError l k => exec env k (log_line l w)
  | Spawn c k => exec env k (start env c w)
  end.

(** The event loop: a UI event invokes a handler closed over the current
    render, or the [i]-th pending operation settles and its call resumes. *)
Inductive Event : Type :=
| Invoke (handler : AppState -> Async unit)
| Settle (i : nat).

Definition dispatch (env : Env) (ev : Event) (w : World) : World :=
  match ev with
  | Invoke h => start env (h (app w)) w
  | Settle i =>
      match pending w !! i with
      | None => w
      | Some (Blocked op k) =>
          let '(r, w1) := settle env op (set_pending (delete i) w) in
          start env (k r) w1
      end
  end.

Definition run_events (env : Env) (evs : list Event) (w : World) : World :=
  fold_left (fun w ev => dispatch env ev w) evs w.

(** Resume a suspended call: its operation settles and the call runs to
    completion. *)
Definition resume (env : Env) (task : Task) (w : World) : World * Completion unit :=
  match task with
  | Blocked op k => let '(r, w1) := settle env op w in exec env (k r) w1
  end.

(** An awaited operation, whatever its result type. *)
Inductive AnyOp : Type :=
| any_op {X : Type} (op : Op X).

(** The operations a call awaits when run to completion, in order, each
    with the world as it is when the operation is issued. *)
Fixpoint awaits (env : Env) {A : Type} (p : Async A) (w : World) : list (AnyOp * World) :=
  match p with
  | Return _ => []
  | Throw _ => []
  | Call b k => awaits env (k (builtin env b (tick w))) (tock w)
  | Await op k => (any_op op, w) :: let '(r, w1) := settle env op w in awaits env (k r) w1
  | SetState f k => awaits env k (set_app f w)
  | ConsoleError l k => awaits env k (log_line l w)
  | Spawn c k => awaits env k (start env c w)
  end.

(** ** JavaScript idioms *)

(** [a || d] on an optional string: [undefined] and the empty string are
    falsy. *)
Definition truthy_string (o : option string) : option string :=
  match o with
  | Some s => if decide (s = EmptyString) then None else Some s
  | None => None
  end.

(** [a || d] on an optional number: [undefined] and [0] are falsy. *)
Definition truthy_number (o : option Z) : option Z :=
  match o with
  | Some n => if decide (n = 0) then None else Some n
  | None => None
  end.

(** [Array.prototype.findIndex], with [None] for [-1]. *)
Definition findIndex {A : Type} (p : A -> bool) (l : list A) : option nat :=
  fst <$> list_find (fun x => p x = true) l.

(** [Array.prototype.sort(cmp)].  The sort is stable: [x], which precedes
    every element of [l], moves behind [y] only when [cmp x y > 0]. *)
Fixpoint sort_insert {A : Type} (cmp : A -> A -> Z) (x : A) (l : list A) : list A :=
  match l with
  | [] => [x]
  | y :: l' => if 0 <? cmp x y then y :: sort_insert cmp x l' else x :: l
  end.

Definition Array_sort {A : Type} (cmp : A -> A -> Z) (l : list A) : list A :=
  foldr (sort_insert cmp) [] l.

(** [s.split('@')[0]] *)
Fixpoint before_at (s : string) : string :=
  match s with
  | EmptyString => EmptyString
  | String c s' => if decide (c = "@"%char) then EmptyString else String c (before_at s')
  end.

(** ** [utils/crypto.ts] *)

Module EncryptedData.
Record t : Type := mk {
  cipherText : string;
  iv : string;
}.
End EncryptedData.

Section Crypto.
Variable env : Env.

Definition bufferToBase64 (buffer : bytes) : string :=
  btoa env (string_of_list_byte buffer).

Definition base64ToBuffer (base64 : string) : Completion bytes :=
  match atob env base64 with
  | Normal binaryString => Normal (list_byte_of_string binaryString)
  | Thrown e => Thrown e
  end.

Definition stringToSalt (saltStr : string) : Completion bytes :=
  base64ToBuffer saltStr.

Definition generateSalt : Async string :=
  (let* salt := call (GetRandomValues 16) in
   Return (bufferToBase64 salt))%async.

Definition getPasswordKey (password : string) : Async CryptoKey :=
  await (SubtleImportKey (TextEncoder_encode env password)).

(** PBKDF2 with SHA-256 and 100000 iterations, to an AES-GCM 256-bit key. *)
Definition deriveKey (password : string) (salt : bytes) : Async CryptoKey :=
  (let* passwordKey := getPasswordKey password in
   await (SubtleDeriveKey salt 100000 passwordKey))%async.

Definition encryptData (data : VaultItem.t) (masterKey : CryptoKey) : Async EncryptedData.t :=
  (let encodedData := TextEncoder_encode env (JSON_stringify env data) in
   let* iv := call (GetRandomValues 12) in
   let* encryptedContent := await (SubtleEncrypt iv masterKey encodedData) in
   Return (EncryptedData.mk (bufferToBase64 encryptedContent) (bufferToBase64 iv)))%async.

(** [decryptData] returns what [JSON.parse] gives, unchecked.  This is the
    function on plaintexts that are records; [decryptData_any] below is the
    same body for parsed values of any type. *)
Definition decryptData (cipherText ivStr : string) (masterKey : CryptoKey) : Async VaultItem.t :=
  try_catch
    (let* iv := of_completion (base64ToBuffer ivStr) in
     let* encryptedData := of_completion (base64ToBuffer cipherText) in
     let* decryptedContent := await (SubtleDecrypt iv masterKey encryptedData) in
     of_completion (JSON_parse env (TextDecoder_decode env decryptedContent)))%async
    (fun e =>
       console_error "Decryption failed";;
       Throw (mkError "Failed to decrypt item. Wrong password?"))%async.
End Crypto.

(** ** [services/db.ts] *)

Module db.
Definition collectionName : string := "vault_items".

Definition saveItem (item : EncryptedVaultItem.t) : Async unit :=
  try_catch
    (await (SetDoc collectionName (EncryptedVaultItem.id item) item))
    (fun error => console_error "Error saving item to Firestore:";; Throw error)%async.

Definition getItems (uid : string) : Async (list EncryptedVaultItem.t) :=
  try_catch
    (let* querySnapshot := await (GetDocs collectionName uid) in
     Return querySnapshot)%async
    (fun error => console_error "Error fetching items from Firestore:";; Throw error)%async.

Definition deleteItem (id : string) : Async unit :=
  try_catch
    (await (DeleteDoc collectionName id))
    (fun error => console_error "Error deleting item from Firestore:";; Throw error)%async.
End db.

(** ** [App.tsx] *)

Definition message_of (e : Error) : string :=
  match e with mkError m => m end.

Section App.
Variable env : Env.

Definition showToast (message : string) (type : ToastType) : Async unit :=
  (let* now := call DateNow in
   let id := pretty now in
   setState (setToasts (fun prev => prev ++ [Toast.mk id message type]));;
   spawn (Await (Timeout 3000) (fun _ =>
     setState (setToasts (filter (fun t => Toast.id t <> id))))))%async.

(** The listener registered with [onAuthStateChanged]. *)
Definition onAuthStateChanged (currentUser : option FirebaseUser.t) : Async unit :=
  (match currentUser with
   | Some cu =>
       let displayName :=
         match truthy_string (FirebaseUser.displayName cu) with
         | Some n => n
         | None =>
             match truthy_string (before_at <$> FirebaseUser.email cu) with
             | Some n => n
             | None => "User"
             end
         end in
       setState (setUser (Some (UserProfile.mk (FirebaseUser.uid cu)
                                  (FirebaseUser.email cu) (Some displayName))))
   | None =>
       setState (setUser None);;
       setState (setMasterKey None);;
       setState (setIsVaultLocked true);;
       setState (setItems (fun _ => []))
   end;;
   setState (setAuthLoading false))%async.

Definition handleLogout : Async unit :=
  try_catch
    (await SignOut;; showToast "Logged out successfully" success)%async
    (fun _ => showToast "Error logging out" error).

Definition compareItems (a b : VaultItem.t) : Z :=
  VaultItem.updatedAt b - VaultItem.updatedAt a.

(** The [for ... of] loop of [loadVaultItems]; [decryptedItems] is the
    array the loop pushes to. *)
Fixpoint decryptLoop (key : CryptoKey) (encryptedItems : list EncryptedVaultItem.t)
    (decryptedItems : list VaultItem.t) : Async (list VaultItem.t) :=
  match encryptedItems with
  | [] => Return decryptedItems
  | encItem :: rest =>
      (let* decryptedItems :=
         try_catch
           (let* data := decryptData env (EncryptedVaultItem.data encItem)
                           (EncryptedVaultItem.iv encItem) key in
            Return (decryptedItems ++ [VaultItem.with_id data (EncryptedVaultItem.id encItem)]))
           (fun _ =>
              console_error ("Failed to decrypt item " +:+ EncryptedVaultItem.id encItem);;
              Return decryptedItems) in
       decryptLoop key rest decryptedItems)%async
  end.

Definition loadVaultItems (uid : string) (key : CryptoKey) : Async unit :=
  (setState (setLoadingItems true);;
   finally
     (try_catch
        (let* encryptedItems := db.getItems uid in
         let* decryptedItems := decryptLoop key encryptedItems [] in
         setState (setItems (fun _ => Array_sort compareItems decryptedItems)))
        (fun e =>
           console_error (message_of e);;
           showToast "Error loading vault from cloud" error))
     (setState (setLoadingItems false)))%async.

(** [user] is the value of the state cell in the render that created the
    handler. *)
Definition unlockVault (user : option UserProfile.t) (password : string) : Async unit :=
  try_catch
    (match user with
     | None => Return tt
     | Some user =>
         let* deterministicSalt :=
           of_completion
             (stringToSalt env
                (substring 0 24 (btoa env (UserProfile.uid user +:+ "_salt_fixed_123")))) in
         let* key := deriveKey env password deterministicSalt in
         setState (setMasterKey (Some key));;
         setState (setIsVaultLocked false);;
         spawn (loadVaultItems (UserProfile.uid user) key)
     end)%async
    (fun err =>
       console_error (message_of err);;
       showToast "Failed to unlock vault" error)%async.

(** The updater [handleSaveItem] passes to [setItems]. *)
Definition upsertItem (newItem : VaultItem.t) (prev : list VaultItem.t) : list VaultItem.t :=
  match findIndex (fun i => bool_decide (VaultItem.id i = VaultItem.id newItem)) prev with
  | Some idx => <[idx := newItem]> prev
  | None => newItem :: prev
  end.

(** The object literal [newItem] of [handleSaveItem]; its fields are
    evaluated in source order, so the identifier is drawn before the
    clock is read. *)
Definition makeNewItem (item : PartialVaultItem.t) : Async VaultItem.t :=
  (let* id :=
     match truthy_string (PartialVaultItem.id item) with
     | Some i => Return i
     | None => call RandomUUID
     end in
   let* createdAt :=
     match truthy_number (PartialVaultItem.createdAt item) with
     | Some c => Return c
     | None => call DateNow
     end in
   let* updatedAt := call DateNow in
   Return (VaultItem.mk id
             (default LOGIN (PartialVaultItem.type item))
             (default "Untitled" (truthy_string (PartialVaultItem.title item)))
             (Some (default EmptyString (PartialVaultItem.username item)))
             (Some (default EmptyString (PartialVaultItem.password item)))
             (Some (default EmptyString (PartialVaultItem.url item)))
             (Some (default EmptyString (PartialVaultItem.notes item)))
             (Some (default EmptyString (PartialVaultItem.folder item)))
             (Some (default false (PartialVaultItem.favorite item)))
             createdAt updatedAt))%async.

Definition handleSaveItem (user : option UserProfile.t) (masterKey : option CryptoKey)
    (item : PartialVaultItem.t) : Async unit :=
  match user, masterKey with
  | Some user, Some masterKey =>
      (let* newItem := makeNewItem item in
       try_catch
         (let* enc := encryptData env newItem masterKey in
          let encryptedItem :=
            EncryptedVaultItem.mk (VaultItem.id newItem) (EncryptedData.cipherText enc)
              (EncryptedData.iv enc) EmptyString (UserProfile.uid user) (VaultItem.updatedAt newItem) in
          db.saveItem encryptedItem;;
          setState (setItems (upsertItem newItem));;
          setState (setIsModalOpen false);;
          setState (setEditingItem None);;
          showToast "Item saved securely" success)
         (fun e =>
            console_error (message_of e);;
            showToast "Failed to save item" error))%async
  | _, _ => Return tt
  end.

Definition handleDeleteItem (id : string) : Async unit :=
  (let* confirmed := call (Confirm "Are you sure you want to delete this item?") in
   if confirmed : bool then
     try_catch
       (db.deleteItem id;;
        setState (setItems (filter (fun i => VaultItem.id i <> id)));;
        showToast "Item deleted" success)
       (fun _ => showToast "Failed to delete item" error)
   else Return tt)%async.
End App.

(** ** Plaintexts of any shape

    [decryptData] is declared [Promise<any>]: it hands on what [JSON.parse]
    returns without looking at it, the loop of [loadVaultItems] spreads that
    value into the array as it is, and the comparator reads [updatedAt] off
    whatever object results.  An [Env] describes the sessions in which
    every plaintext that parses is a [VaultItem], as [handleSaveItem] writes
    them; [JSON_parse] of an [Env] is [JSON.parse] on such texts.  The same
    lines are embedded here for any type [D] of parsed values and any type
    [I] of array elements, so that plaintexts of other shapes can be run
    too; [decryptData], [decryptLoop] and the working set of
    [loadVaultItems] are the instance at [VaultItem.t]. *)

Section AnyPlaintext.
Variable env : Env.
Context {D I : Type}.
Variable JSON_parse_any : string -> Completion D.
Variable spread_id : D -> string -> I.
Variable compare : I -> I -> Z.

Definition decryptData_any (cipherText ivStr : string) (masterKey : CryptoKey) : Async D :=
  try_catch
    (let* iv := of_completion (base64ToBuffer env ivStr) in
     let* encryptedData := of_completion (base64ToBuffer env cipherText) in
     let* decryptedContent := await (SubtleDecrypt iv masterKey encryptedData) in
     of_completion (JSON_parse_any (TextDecoder_decode env decryptedContent)))%async
    (fun e =>
       console_error "Decryption failed";;
       Throw (mkError "Failed to decrypt item. Wrong password?"))%async.

Fixpoint decryptLoop_any (key : CryptoKey) (encryptedItems : list EncryptedVaultItem.t)
    (decryptedItems : list I) : Async (list I) :=
  match encryptedItems with
  | [] => Return decryptedItems
  | encItem :: rest =>
      (let* decryptedItems :=
         try_catch
           (let* data := decryptData_any (EncryptedVaultItem.data encItem)
                           (EncryptedVaultItem.iv encItem) key in
            Return (decryptedItems ++ [spread_id data (EncryptedVaultItem.id encItem)]))
           (fun _ =>
              console_error ("Failed to decrypt item " +:+ EncryptedVaultItem.id encItem);;
              Return decryptedItems) in
       decryptLoop_any key rest decryptedItems)%async
  end.

(** The [try] block of [loadVaultItems], up to the array it hands to
    [setItems]. *)
Definition sortedItems_any (uid : string) (key : CryptoKey) : Async (list I) :=
  (let* encryptedItems := db.getItems uid in
   let* decryptedItems := decryptLoop_any key encryptedItems [] in
   Return (Array_sort compare decryptedItems))%async.
End AnyPlaintext.

(** The comparator [(a, b) => b.updatedAt - a.updatedAt] on objects that may
    lack [updatedAt]: the difference is [NaN] when either side is
    [undefined], and [Array.prototype.sort] reads a [NaN] from its
    comparator as [+0]. *)
Definition comparePartial (a b : PartialVaultItem.t) : Z :=
  match PartialVaultItem.updatedAt b, PartialVaultItem.updatedAt a with
  | Some y, Some x => y - x
  | _, _ => 0
  end.

(** ** A concrete environment

    An environment on which the model evaluates: base64 as [btoa] and [atob]
    compute it, and small stand-ins for the other built-ins (a line-based
    record serialisation, byte-wise text encoding, a masking cipher with a
    one-byte authentication tag, concatenation as key derivation). *)

Module Reference.
Definition byte_of (n : N) : byte := default x00 (Byte.of_N (n mod 256)%N).

Module Base64.
Definition alphabet : string :=
  "ABCDEFGHIJKLMNOPQRSTUVWXYZabcdefghijklmnopqrstuvwxyz0123456789+/".

Definition digit (n : N) : ascii :=
  default "A"%char (String.get (N.to_nat n) alphabet).

Fixpoint index_from (i : N) (c : ascii) (s : string) : option N :=
  match s with
  | EmptyString => None
  | String d s' => if decide (c = d) then Some i else index_from (N.succ i) c s'
  end.

Definition value (c : ascii) : option N := index_from 0 c alphabet.

Fixpoint encode (l : bytes) : string :=
  match l with
  | [] => EmptyString
  | [a] =>
      let x := Byte.to_N a in
      String (digit (x / 4)) (String (digit (x mod 4 * 16)) "==")
  | [a; b] =>
      let x := Byte.to_N a in
      let y := Byte.to_N b in
      String (digit (x / 4)) (String (digit (x mod 4 * 16 + y / 16))
        (String (digit (y mod 16 * 4)) "="))
  | a :: b :: c :: rest =>
      let x := Byte.to_N a in
      let y := Byte.to_N b in
      let z := Byte.to_N c in
      String (digit (x / 4)) (String (digit (x mod 4 * 16 + y / 16))
        (String (digit (y mod 16 * 4 + z / 64)) (String (digit (z mod 64))
           (encode rest))))
  end%N.

Definition is_whitespace (c : ascii) : bool :=
  bool_decide (c ∈ ["009"; "010"; "012"; "013"; " "]%char).

(** Up to two trailing [=] are dropped when the length is a multiple of
    four. *)
Definition strip_padding (cs : list ascii) : list ascii :=
  if decide (length cs mod 4 = 0)%nat then
    match reverse cs with
    | "="%char :: "="%char :: r => reverse r
    | "="%char :: r => reverse r
    | _ => cs
    end
  else cs.

Fixpoint decode_values (vs : list N) : bytes :=
  match vs with
  | a :: b :: c :: d :: rest =>
      byte_of (a * 4 + b / 16) :: byte_of (b mod 16 * 16 + c / 4)
        :: byte_of (c mod 4 * 64 + d) :: decode_values rest
  | [a; b; c] => [byte_of (a * 4 + b / 16); byte_of (b mod 16 * 16 + c / 4)]
  | [a; b] => [byte_of (a * 4 + b / 16)]
  | _ => []
  end%N.

Definition decode (s : string) : option bytes :=
  let cs := strip_padding (filter (fun c => is_whitespace c = false) (list_ascii_of_string s)) in
  if decide (length cs mod 4 = 1)%nat then None
  else decode_values <$> mapM value cs.
End Base64.

Definition btoa (s : string) : string := Base64.encode (list_byte_of_string s).

Definition atob (s : string) : Completion string :=
  match Base64.decode s with
  | Some l => Normal (string_of_list_byte l)
  | None => Thrown (mkError "InvalidCharacterError")
  end.

(** Record serialisation, standing in for JSON text: one field per line,
    in the order of the fields of [VaultItem]. *)
Definition newline : ascii := "010"%char.

Fixpoint unlines (ls : list string) : string :=
  match ls with
  | [] => EmptyString
  | [l] => l
  | l :: ls' => l +:+ String newline (unlines ls')
  end.

Fixpoint lines_from (cur : string) (s : string) : list string :=
  match s with
  | EmptyString => [String.rev cur]
  | String c s' =>
      if decide (c = newline) then String.rev cur :: lines_from EmptyString s'
      else lines_from (String c cur) s'
  end.

Definition show_type (t : ItemType) : string :=
  match t with LOGIN => "LOGIN" | NOTE => "NOTE" | CARD => "CARD" | KEY => "KEY" end.

Definition read_type (s : string) : option ItemType :=
  if decide (s = "LOGIN") then Some LOGIN
  else if decide (s = "NOTE") then Some NOTE
  else if decide (s = "CARD") then Some CARD
  else if decide (s = "KEY") then Some KEY
  else None.

Definition show_opt (o : option string) : string :=
  match o with Some s => String "+" s | None => "-" end.

Definition read_opt (s : string) : option (option string) :=
  match s with
  | String "+" v => Some (Some v)
  | String "-" EmptyString => Some None
  | _ => None
  end.

Definition show_bool (o : option bool) : string :=
  match o with Some true => "true" | Some false => "false" | None => "-" end.

Definition read_bool (s : string) : option (option bool) :=
  if decide (s = "true") then Some (Some true)
  else if decide (s = "false") then Some (Some false)
  else if decide (s = "-") then Some None
  else None.

Fixpoint read_digits (acc : Z) (s : string) : option Z :=
  match s with
  | EmptyString => Some acc
  | String c s' =>
      let n := Z.of_N (N_of_ascii c) - 48 in
      if decide (0 <= n <= 9) then read_digits (10 * acc + n) s' else None
  end.

Definition read_Z (s : string) : option Z :=
  match s with
  | EmptyString => None
  | String "-" s' => Z.opp <$> read_digits 0 s'
  | _ => read_digits 0 s
  end.

Definition JSON_stringify (v : VaultItem.t) : string :=
  unlines [VaultItem.id v; show_type (VaultItem.type v); VaultItem.title v;
           show_opt (VaultItem.username v); show_opt (VaultItem.password v);
           show_opt (VaultItem.url v); show_opt (VaultItem.notes v);
           show_opt (VaultItem.folder v); show_bool (VaultItem.favorite v);
           pretty (VaultItem.createdAt v); pretty (VaultItem.updatedAt v)].

Definition JSON_parse (s : string) : Completion VaultItem.t :=
  match lines_from EmptyString s with
  | [i; ty; ti; us; pw; ur; no; fo; fa; cr; up] =>
      match read_type ty, read_opt us, read_opt pw, read_opt ur, read_opt no,
            read_opt fo, read_bool fa, read_Z cr, read_Z up with
      | Some ty, Some us, Some pw, Some ur, Some no, Some fo, Some fa, Some cr, Some up =>
          Normal (VaultItem.mk i ty ti us pw ur no fo fa cr up)
      | _, _, _, _, _, _, _, _, _ => Thrown (mkError "SyntaxError")
      end
  | _ => Thrown (mkError "SyntaxError")
  end.

(** The same serialisation read as an object that may lack its
    timestamps: an empty line is an absent field. *)
Definition read_number (s : string) : option (option Z) :=
  if decide (s = EmptyString) then Some None else Some <$> read_Z s.

Definition JSON_parse_partial (s : string) : Completion PartialVaultItem.t :=
  match lines_from EmptyString s with
  | [i; ty; ti; us; pw; ur; no; fo; fa; cr; up] =>
      match read_type ty, read_opt us, read_opt pw, read_opt ur, read_opt no,
            read_opt fo, read_bool fa, read_number cr, read_number up with
      | Some ty, Some us, Some pw, Some ur, Some no, Some fo, Some fa, Some cr, Some up =>
          Normal (PartialVaultItem.mk (Some i) (Some ty) (Some ti) us pw ur no fo fa cr up)
      | _, _, _, _, _, _, _, _, _ => Thrown (mkError "SyntaxError")
      end
  | _ => Thrown (mkError "SyntaxError")
  end.

(** The cipher: each byte is masked with a key byte and a nonce byte, and
    a checksum of the plaintext and the key is appended as the tag. *)
Definition xor_byte (a b : byte) : byte :=
  byte_of (N.lxor (Byte.to_N a) (Byte.to_N b)).

Definition nth_cyclic (l : bytes) (i : nat) : byte :=
  default x00 (l !! (i mod length l)%nat).

Definition mask (iv : bytes) (key : CryptoKey) (l : bytes) : bytes :=
  imap (fun i b => xor_byte b (xor_byte (nth_cyclic (material key) i) (nth_cyclic iv i))) l.

Definition checksum (key : CryptoKey) (l : bytes) : byte :=
  byte_of (foldr (fun b acc => Byte.to_N b + acc)%N 0%N (material key ++ l)).

Definition subtle_encrypt (iv : bytes) (key : CryptoKey) (plaintext : bytes) : Completion bytes :=
  Normal (mask iv key plaintext ++ [checksum key plaintext]).

Definition subtle_decrypt (iv : bytes) (key : CryptoKey) (ciphertext : bytes) : Completion bytes :=
  match reverse ciphertext with
  | tag :: body =>
      let plaintext := mask iv key (reverse body) in
      if decide (checksum key plaintext = tag) then Normal plaintext
      else Thrown (mkError "OperationError")
  | [] => Thrown (mkError "OperationError")
  end.

Definition subtle_importKey (raw : bytes) : Completion CryptoKey :=
  Normal (mkCryptoKey PBKDF2 raw).

Definition subtle_deriveKey (salt : bytes) (iterations : N) (baseKey : CryptoKey)
    : Completion CryptoKey :=
  Normal (mkCryptoKey AES_GCM (material baseKey ++ salt)).

(** The environment of a session: [docs] is what the remote collection
    answers to every query, [fault] tells which calls find the store
    unreachable. *)
Definition env (docs : list EncryptedVaultItem.t) (fault : nat -> option Error) : Env :=
  mkEnv JSON_stringify JSON_parse list_byte_of_string string_of_list_byte btoa atob
    subtle_importKey subtle_deriveKey subtle_encrypt subtle_decrypt
    (fun t i => byte_of (N.of_nat (17 * t + 29 * i + 1)))
    (fun t => "uuid-" +:+ pretty (N.of_nat t))
    (fun t => 1700000000000 + Z.of_nat t)
    (fun _ => true)
    fault
    (fun _ _ _ => docs)
    (fun _ => None).

Definition online : nat -> option Error := fun _ => None.
Definition offline : nat -> option Error := fun _ => Some (mkError "unavailable").

Definition alice : UserProfile.t :=
  UserProfile.mk "alice" (Some "alice@example.com") (Some "alice").

Definition state0 : AppState :=
  mkAppState (Some alice) false None true [] false [] false None.

Definition world0 : World := mkWorld state0 ∅ [] 0 [].
End Reference.

(** ** Values the programs compute

    Closed forms of what the calls return, used to state the properties. *)

Section Values.
Variable env : Env.

(** The nonce an [encryptData] call draws when the tick counter is [t]. *)
Definition nonce_at (t : nat) : bytes := builtin env (GetRandomValues 12) t.

(** What [encryptData] resolves to, as a function of the nonce drawn. *)
Definition encryptData_value (data : VaultItem.t) (masterKey : CryptoKey) (iv : bytes)
    : Completion EncryptedData.t :=
  match subtle_encrypt env iv masterKey (TextEncoder_encode env (JSON_stringify env data)) with
  | Normal encryptedContent =>
      Normal (EncryptedData.mk (bufferToBase64 env encryptedContent) (bufferToBase64 env iv))
  | Thrown e => Thrown e
  end.

(** What the [try] block of [decryptData] computes. *)
Definition decryptData_value (cipherText ivStr : string) (masterKey : CryptoKey)
    : Completion VaultItem.t :=
  match base64ToBuffer env ivStr with
  | Thrown e => Thrown e
  | Normal iv =>
      match base64ToBuffer env cipherText with
      | Thrown e => Thrown e
      | Normal encryptedData =>
          match subtle_decrypt env iv masterKey encryptedData with
          | Thrown e => Thrown e
          | Normal decryptedContent =>
              JSON_parse env (TextDecoder_decode env decryptedContent)
          end
      end
  end.

Definition decryptFailure : Error := mkError "Failed to decrypt item. Wrong password?".
End Values.

(** [decrypt(encrypt(r, k), k)]: the envelope fields [encryptData] returns
    are handed back to [decryptData] under the same key. *)
Definition decrypt_encrypt (env : Env) (r : VaultItem.t) (k : CryptoKey) : Async VaultItem.t :=
  (let* e := encryptData env r k in
   decryptData env (EncryptedData.cipherText e) (EncryptedData.iv e) k)%async.

(** The built-ins the codec composes are lossless at record [r], key [k]
    and nonce [iv]: the JSON text parses back to [r], the UTF-8 bytes decode
    back to the text, AES-GCM decrypts what it encrypted under the same key
    and nonce, and base64 text decodes back to the bytes it encodes. *)
Definition builtins_lossless (env : Env) (r : VaultItem.t) (k : CryptoKey) (iv : bytes) : Prop :=
  let text := JSON_stringify env r in
  let plaintext := TextEncoder_encode env text in
  JSON_parse env text = Normal r /\
  TextDecoder_decode env plaintext = text /\
  atob env (btoa env (string_of_list_byte iv)) = Normal (string_of_list_byte iv) /\
  match subtle_encrypt env iv k plaintext with
  | Normal ct =>
      subtle_decrypt env iv k ct = Normal plaintext /\
      atob env (btoa env (string_of_list_byte ct)) = Normal (string_of_list_byte ct)
  | Thrown _ => False
  end.

(** [N] successive [encryptData] calls under one key, one per record. *)
Fixpoint encryptEach (env : Env) (k : CryptoKey) (datas : list VaultItem.t)
    : Async (list EncryptedData.t) :=
  match datas with
  | [] => Return []
  | d :: ds =>
      (let* e := encryptData env d k in
       let* es := encryptEach env k ds in
       Return (e :: es))%async
  end.

(** The nonce and the key of an awaited AES-GCM encryption. *)
Definition encryption_of (a : AnyOp) : option (bytes * CryptoKey) :=
  match a with
  | any_op op =>
      match op with
      | SubtleEncrypt iv key _ => Some (iv, key)
      | _ => None
      end
  end.

(** *** Hydration *)

Section Hydration.
Variable env : Env.
Variable key : CryptoKey.

(** The record the loop of [loadVaultItems] pushes for [encItem]: the
    decrypted data with the envelope's [id], or nothing when
    [decryptData] throws. *)
Definition hydrate_one (encItem : EncryptedVaultItem.t) : option VaultItem.t :=
  match decryptData_value env (EncryptedVaultItem.data encItem)
          (EncryptedVaultItem.iv encItem) key with
  | Normal data => Some (VaultItem.with_id data (EncryptedVaultItem.id encItem))
  | Thrown _ => None
  end.

Definition hydrated (batch : list EncryptedVaultItem.t) : list VaultItem.t :=
  omap hydrate_one batch.

(** The envelopes of a batch that fail to decrypt. *)
Definition undecryptable (batch : list EncryptedVaultItem.t) : list EncryptedVaultItem.t :=
  filter (fun encItem => hydrate_one encItem = None) batch.

(** The console lines a batch leaves: two per failed envelope, one from
    [decryptData] and one from the loop. *)
Definition failure_log (batch : list EncryptedVaultItem.t) : list string :=
  flat_map (fun encItem =>
              match hydrate_one encItem with
              | Some _ => []
              | None => ["Decryption failed";
                         "Failed to decrypt item " +:+ EncryptedVaultItem.id encItem]
              end) batch.
End Hydration.

Definition log_lines (ls : list string) (w : World) : World :=
  mkWorld (app w) (firestore w) (console w ++ ls) (tick w) (pending w).

(** The envelope [handleSaveItem] stores for [v] when the nonce is drawn at
    tick [t]. *)
Definition seal_item (env : Env) (k : CryptoKey) (owner : string) (t : nat) (v : VaultItem.t)
    : EncryptedVaultItem.t :=
  match encryptData_value env v k (nonce_at env t) with
  | Normal e =>
      EncryptedVaultItem.mk (VaultItem.id v) (EncryptedData.cipherText e)
        (EncryptedData.iv e) EmptyString owner (VaultItem.updatedAt v)
  | Thrown _ => EncryptedVaultItem.mk (VaultItem.id v) EmptyString EmptyString EmptyString owner (VaultItem.updatedAt v)
  end.

(** What a caller can observe of a [loadVaultItems] call: the value its
    promise settles with and the React state it leaves. *)
Definition hydrate_observation (env : Env) (uid : string) (key : CryptoKey) (w : World)
    : AppState * Completion unit :=
  let '(w1, r) := exec env (loadVaultItems env uid key) w in (app w1, r).

(** *** [handleSaveItem] *)

Definition set_tick (t : nat) (w : World) : World :=
  mkWorld (app w) (firestore w) (console w) t (pending w).

Section NewItem.
Variable env : Env.
Variable item : PartialVaultItem.t.

(** The [id] of [newItem] and the tick after it is settled, from tick [t]. *)
Definition assigned_id (t : nat) : string * nat :=
  match truthy_string (PartialVaultItem.id item) with
  | Some i => (i, t)
  | None => (uuid env t, S t)
  end.

Definition assigned_createdAt (t : nat) : Z * nat :=
  match truthy_number (PartialVaultItem.createdAt item) with
  | Some c => (c, t)
  | None => (clock env t, S t)
  end.

(** The tick at which [Date.now()] is read for [updatedAt]. *)
Definition stamp_tick (t : nat) : nat :=
  (assigned_createdAt (assigned_id t).2).2.

(** The [newItem] a [handleSaveItem] call entered at tick [t] builds. *)
Definition newItem_at (t : nat) : VaultItem.t :=
  VaultItem.mk (assigned_id t).1
    (default LOGIN (PartialVaultItem.type item))
    (default "Untitled" (truthy_string (PartialVaultItem.title item)))
    (Some (default EmptyString (PartialVaultItem.username item)))
    (Some (default EmptyString (PartialVaultItem.password item)))
    (Some (default EmptyString (PartialVaultItem.url item)))
    (Some (default EmptyString (PartialVaultItem.notes item)))
    (Some (default EmptyString (PartialVaultItem.folder item)))
    (Some (default false (PartialVaultItem.favorite item)))
    (assigned_createdAt (assigned_id t).2).1
    (clock env (stamp_tick t)).
End NewItem.

(** The tick at which a [handleSaveItem] call entered at tick [t] reaches
    the remote store: after [newItem] is built and the nonce is drawn. *)
Definition store_tick (env : Env) (item : PartialVaultItem.t) (t : nat) : nat :=
  S (S (stamp_tick env item t)).

(** The envelope [handleSaveItem] builds from [newItem] and the codec's
    output. *)
Definition envelope_of (u : UserProfile.t) (newItem : VaultItem.t) (enc : EncryptedData.t)
    : EncryptedVaultItem.t :=
  EncryptedVaultItem.mk (VaultItem.id newItem) (EncryptedData.cipherText enc)
    (EncryptedData.iv enc) EmptyString (UserProfile.uid u) (VaultItem.updatedAt newItem).

(** The salt [unlockVault] derives from the user's [uid]. *)
Definition deterministicSalt (env : Env) (u : UserProfile.t) : Completion bytes :=
  stringToSalt env (substring 0 24 (btoa env (UserProfile.uid u +:+ "_salt_fixed_123"))).

(** The toast [showToast] adds when the clock is read at tick [t]. *)
Definition toast_at (env : Env) (t : nat) (message : string) (type : ToastType) : Toast.t :=
  Toast.mk (pretty (clock env t)) message type.

Module Sample.
Import Reference.

Definition key : CryptoKey := mkCryptoKey AES_GCM [x6b; x65; x79; x21].

Definition login : VaultItem.t :=
  VaultItem.mk "a1" LOGIN "Example" (Some "a@b.com") (Some "p@ss") (Some EmptyString)
    (Some EmptyString) (Some EmptyString) (Some false) 1700000000000 1700000000005.
Definition note : VaultItem.t :=
  VaultItem.mk "n7" NOTE "Recovery codes" None (Some "1234 5678") None
    (Some "keep offline") None None 1600000000000 1700000000005.
Definition card : VaultItem.t :=
  VaultItem.mk "c3" CARD "Visa" (Some "A. Lice") (Some "4111111111111111") None
    None (Some "bank") (Some true) 1650000000000 1710000000000.

Definition plain : Env := env [] online.

(** Envelopes of [alice], sealed under [key]. *)
Definition sealed (t : nat) (v : VaultItem.t) : EncryptedVaultItem.t :=
  seal_item plain key "alice" t v.

(** An envelope whose ciphertext was altered in its first characters. *)
Definition tamper (e : EncryptedVaultItem.t) : EncryptedVaultItem.t :=
  EncryptedVaultItem.mk (EncryptedVaultItem.id e)
    ("AAAA" +:+ substring 4 (String.length (EncryptedVaultItem.data e)) (EncryptedVaultItem.data e))
    (EncryptedVaultItem.iv e) (EncryptedVaultItem.salt e) (EncryptedVaultItem.ownerId e)
    (EncryptedVaultItem.updatedAt e).

(** An envelope stored under another identifier than the one inside its
    plaintext. *)
Definition renamed (i : string) (e : EncryptedVaultItem.t) : EncryptedVaultItem.t :=
  EncryptedVaultItem.mk i (EncryptedVaultItem.data e)
    (EncryptedVaultItem.iv e) (EncryptedVaultItem.salt e) (EncryptedVaultItem.ownerId e)
    (EncryptedVaultItem.updatedAt e).

Definition batch : list EncryptedVaultItem.t :=
  Eval vm_compute in [sealed 0 login; sealed 1 note; sealed 2 card].

(** Form data for a new login, and for an edit of a record created at
    timestamp [0]. *)
Definition draft : PartialVaultItem.t :=
  PartialVaultItem.mk None (Some LOGIN) (Some "Example") (Some "a@b.com") (Some "p@ss")
    (Some EmptyString) (Some EmptyString) None None None None.

Definition epoch_record : PartialVaultItem.t :=
  PartialVaultItem.mk (Some "a1") (Some LOGIN) (Some "Example") (Some "a@b.com") (Some "p@ss")
    (Some EmptyString) (Some EmptyString) None None (Some 0) (Some 0).

(** The record the edit above starts from, and an unlocked session that
    holds it. *)
Definition epoch_login : VaultItem.t :=
  VaultItem.mk "a1" LOGIN "Example" (Some "a@b.com") (Some "old") (Some EmptyString)
    (Some EmptyString) (Some EmptyString) (Some false) 0 0.

Definition unlocked (held : list VaultItem.t) : World :=
  mkWorld (mkAppState (Some alice) false (Some key) false held false [] false None)
    ∅ [] 0 [].

Definition outage : Env := env [] offline.

(** A session of [alice]: her master password, the salt and the key
    [unlockVault] derives from it, the one envelope her remote vault holds,
    and the environment that serves it. *)
Definition password : string := "hunter2".

Definition salt : bytes :=
  Eval vm_compute in
    match deterministicSalt plain alice with Normal s => s | Thrown _ => [] end.

Definition sessionKey : CryptoKey :=
  Eval vm_compute in mkCryptoKey AES_GCM (list_byte_of_string password ++ salt).

Definition vault : list EncryptedVaultItem.t :=
  Eval vm_compute in [seal_item plain sessionKey "alice" 0 login].

Definition remote : Env := env vault online.

(** The user unlocks the vault; the key is derived and hydration starts;
    while the fetch is in flight the authentication listener reports that
    the user signed out; then the fetch and the decryption settle. *)
Definition unlock_then_sign_out : list Event :=
  [Invoke (fun st => unlockVault remote (user st) password);
   Settle 0;
   Settle 0;
   Invoke (fun _ => onAuthStateChanged None)].

Definition hydrate_settles : list Event :=
  [Settle 0; Settle 0].

Definition batch_with_corrupt : list EncryptedVaultItem.t :=
  Eval vm_compute in [sealed 0 login; tamper (sealed 2 card); sealed 1 note].

Definition batch_without_corrupt : list EncryptedVaultItem.t :=
  Eval vm_compute in [sealed 0 login; sealed 1 note].

Definition batch_renamed : list EncryptedVaultItem.t :=
  Eval vm_compute in [renamed "moved" (sealed 0 login)].

(** An envelope of [alice] whose plaintext is [text], sealed under [key]
    like the others. *)
Definition sealed_text (t : nat) (i : string) (text : string) : EncryptedVaultItem.t :=
  match subtle_encrypt (nonce_at plain t) key (list_byte_of_string text) with
  | Normal ct =>
      EncryptedVaultItem.mk i (bufferToBase64 plain ct) (bufferToBase64 plain (nonce_at plain t))
        EmptyString "alice" 0
  | Thrown _ => EncryptedVaultItem.mk i EmptyString EmptyString EmptyString "alice" 0
  end.

(** The text of [note] without its [updatedAt], and a batch that holds it
    between [login] and the more recent [card]. *)
Definition undated_note : string :=
  unlines ["n7"; "NOTE"; "Recovery codes"; "-"; "+1234 5678"; "-"; "+keep offline"; "-"; "-";
           "1600000000000"; EmptyString].

Definition batch_with_undated : list EncryptedVaultItem.t :=
  Eval vm_compute in [sealed 0 login; sealed_text 1 "n7" undated_note; sealed 2 card].

(** The object that text denotes. *)
Definition undated : PartialVaultItem.t :=
  PartialVaultItem.mk (Some "n7") (Some NOTE) (Some "Recovery codes") None (Some "1234 5678")
    None (Some "keep offline") None None (Some 1600000000000) None.
End Sample.

(** The reading of "hydrate returns a count of failures": some function
    [count] of what the call returns and of the state it leaves gives, for
    every fetched batch, the number of envelopes that failed to decrypt. *)
Definition reports_failure_count (count : AppState * Completion unit -> nat) : Prop :=
  forall (env : Env) (uid : string) (key : CryptoKey) (w : World),
    firestore_fault env (tick w) = None ->
    count (hydrate_observation env uid key w) =
    length (undecryptable env key (firestore_query env (tick w) db.collectionName uid)).

Definition newer_first (a b : VaultItem.t) : Prop :=
  VaultItem.updatedAt b <= VaultItem.updatedAt a.

(** The same order on array elements of any type, [stamp] reading the
    number in [updatedAt] when there is one: both elements have one, and
    the first is not the older. *)
Definition newer_first_by {I : Type} (stamp : I -> option Z) (a b : I) : Prop :=
  exists x y, stamp a = Some x /\ stamp b = Some y /\ y <= x.

(** *** Key derivation, as [unlockVault] reaches it *)

(** What the derivation of [unlockVault] comes to for user [u]: the salt is
    decoded, the password imported, PBKDF2 run; the first failure ends
    it. *)
Definition derivation_outcome (env : Env) (u : UserProfile.t) (password : string)
    : Completion CryptoKey :=
  match deterministicSalt env u with
  | Thrown e => Thrown e
  | Normal salt =>
      match subtle_importKey env (TextEncoder_encode env password) with
      | Thrown e => Thrown e
      | Normal baseKey => subtle_deriveKey env salt 100000 baseKey
      end
  end.

(** The operations that derivation awaits. *)
Definition derivation_awaits (env : Env) (u : UserProfile.t) (password : string) : list AnyOp :=
  match deterministicSalt env u with
  | Thrown _ => []
  | Normal salt =>
      any_op (SubtleImportKey (TextEncoder_encode env password)) ::
      match subtle_importKey env (TextEncoder_encode env password) with
      | Thrown _ => []
      | Normal baseKey => [any_op (SubtleDeriveKey salt 100000 baseKey)]
      end
  end.

(** *** The view of [App]

    The [searchTerm] and [filterType] state cells are arguments;
    [String.prototype.toLowerCase] is a parameter. *)

Inductive FilterType : Type := ALL | Only (t : ItemType).

#[global] Instance ItemType_eq_decision : EqDecision ItemType.
Proof. solve_decision. Defined.

(** [String.prototype.includes] *)
Fixpoint includes (s sub : string) : bool :=
  if String.prefix sub s then true
  else match s with
       | EmptyString => false
       | String _ s' => includes s' sub
       end.

Inductive Screen : Type :=
| AuthScreen
| AuthSpinner
| UnlockScreen
| VaultSyncing
| VaultNoItems
| VaultGrid (cards : list VaultItem.t).

Section View.
Variable toLowerCase : string -> string.

Definition matchesSearch (searchTerm : string) (item : VaultItem.t) : bool :=
  includes (toLowerCase (VaultItem.title item)) (toLowerCase searchTerm)
  || match VaultItem.username item with
     | Some n => includes (toLowerCase n) (toLowerCase searchTerm)
     | None => false
     end.

Definition matchesType (filterType : FilterType) (item : VaultItem.t) : bool :=
  match filterType with
  | ALL => true
  | Only t => bool_decide (VaultItem.type item = t)
  end.

Definition filteredItems (st : AppState) (searchTerm : string) (filterType : FilterType)
    : list VaultItem.t :=
  List.filter (fun item => matchesSearch searchTerm item && matchesType filterType item)
    (items st).

(** What [App] returns: the early returns in source order, then the content
    area of the main view. *)
Definition render (st : AppState) (searchTerm : string) (filterType : FilterType) : Screen :=
  if negb (bool_decide (is_Some (user st))) && negb (authLoading st) then AuthScreen
  else if authLoading st && negb (bool_decide (is_Some (user st))) then AuthSpinner
  else if isVaultLocked st then UnlockScreen
  else if loadingItems st then VaultSyncing
  else match filteredItems st searchTerm filterType with
       | [] => VaultNoItems
       | cards => VaultGrid cards
       end.
End View.

(** *** Further scenarios *)

Module Scenario.
Import Reference.

(** An environment whose PBKDF2 rejects. *)
Definition no_pbkdf2 : Env :=
  mkEnv JSON_stringify JSON_parse list_byte_of_string string_of_list_byte btoa atob
    subtle_importKey (fun _ _ _ => Thrown (mkError "OperationError"))
    subtle_encrypt subtle_decrypt
    (entropy Sample.plain) (uuid Sample.plain) (clock Sample.plain)
    (confirm_answer Sample.plain) online (fun _ _ _ => []) (fun _ => None).

(** An environment whose AES-GCM encryption rejects. *)
Definition no_encrypt : Env :=
  mkEnv JSON_stringify JSON_parse list_byte_of_string string_of_list_byte btoa atob
    subtle_importKey subtle_deriveKey
    (fun _ _ _ => Thrown (mkError "OperationError")) subtle_decrypt
    (entropy Sample.plain) (uuid Sample.plain) (clock Sample.plain)
    (confirm_answer Sample.plain) online (fun _ _ _ => []) (fun _ => None).
End Scenario.

(** ** The shape of a base64 text *)

(** The six-bit groups of a byte sequence, and the number of [=] that
    follow them. *)
Fixpoint sextets (l : bytes) : list N :=
  match l with
  | [] => []
  | [a] =>
      let x := Byte.to_N a in
      [x / 4; x mod 4 * 16]
  | [a; b] =>
      let x := Byte.to_N a in
      let y := Byte.to_N b in
      [x / 4; x mod 4 * 16 + y / 16; y mod 16 * 4]
  | a :: b :: c :: rest =>
      let x := Byte.to_N a in
      let y := Byte.to_N b in
      let z := Byte.to_N c in
      x / 4 :: x mod 4 * 16 + y / 16 :: y mod 16 * 4 + z / 64 :: z mod 64 :: sextets rest
  end%N.

Fixpoint padding (l : bytes) : nat :=
  match l with
  | [] => 0
  | [a] => 2
  | [a; b] => 1
  | _ :: _ :: _ :: rest => padding rest
  end.

(** * Properties *)

(** ** Running composed programs *)

Section Exec.
Variable env : Env.

Lemma exec_bind {A B : Type} (p : Async A) (f : A -> Async B) (w : World) :
  exec env (bind p f) w =
  match exec env p w with
  | (w1, Normal a) => exec env (f a) w1
  | (w1, Thrown e) => (w1, Thrown e)
  end.
Proof.
  revert B f w. induction p; intros; simpl; auto.
  destruct (settle env op w) as [r w1]. auto.
Qed.

Lemma exec_try_catch {A : Type} (p : Async A) (h : Error -> Async A) (w : World) :
  exec env (try_catch p h) w =
  match exec env p w with
  | (w1, Normal a) => (w1, Normal a)
  | (w1, Thrown e) => exec env (h e) w1
  end.
Proof.
  revert h w. induction p; intros; simpl; auto.
  destruct (settle env op w) as [r w1]. auto.
Qed.

Lemma exec_finally {A : Type} (p : Async A) (c : Async unit) (w : World) :
  exec env (finally p c) w =
  match exec env p w with
  | (w1, r) =>
      match exec env c w1 with
      | (w2, Normal _) => (w2, r)
      | (w2, Thrown e) => (w2, Thrown e)
      end
  end.
Proof.
  revert c w. induction p; intros c0 w; simpl; auto.
  - rewrite exec_bind. destruct (exec env c0 w) as [w2 [u|e]]; reflexivity.
  - rewrite exec_bind. destruct (exec env c0 w) as [w2 [u|e']]; reflexivity.
  - destruct (settle env op w) as [r w1]. auto.
Qed.

Lemma exec_of_completion {A : Type} (r : Completion A) (w : World) :
  exec env (of_completion r) w = (w, r).
Proof. destruct r; reflexivity. Qed.

Lemma exec_await {X : Type} (op : Op X) (w : World) :
  exec env (await op) w = (snd (settle env op w), fst (settle env op w)).
Proof.
  unfold await. simpl. destruct (settle env op w) as [r w1]. apply exec_of_completion.
Qed.

Lemma exec_call {X : Type} (b : Builtin X) (w : World) :
  exec env (call b) w = (tock w, Normal (builtin env b (tick w))).
Proof. reflexivity. Qed.

(** Running a call to completion is running it to its next [await],
    settling the operation and going on: [exec] follows one call through
    the steps the event loop takes. *)
Lemma exec_advance {A : Type} (p : Async A) (w : World) :
  exec env p w =
  match advance env p w with
  | (w1, Finished r) => (w1, r)
  | (w1, Suspended op k) => let '(r, w2) := settle env op w1 in exec env (k r) w2
  end.
Proof.
  revert w. induction p; intros w; simpl; auto.
  rewrite IHp2. unfold start. destruct (advance env p1 w) as [w1 s]. reflexivity.
Qed.

(** *** The codec *)


Lemma nonce_at_length (t : nat) : length (nonce_at env t) = 12%nat.
Proof. reflexivity. Qed.


Lemma exec_encryptData (data : VaultItem.t) (masterKey : CryptoKey) (w : World) :
  exec env (encryptData env data masterKey) w =
  (tock w, encryptData_value env data masterKey (nonce_at env (tick w))).
Proof.
  unfold encryptData, encryptData_value, nonce_at.
  rewrite exec_bind, exec_call, exec_bind, exec_await. cbn [settle fst snd].
  destruct (subtle_encrypt env _ masterKey _); reflexivity.
Qed.


Lemma exec_decryptData (cipherText ivStr : string) (masterKey : CryptoKey) (w : World) :
  exec env (decryptData env cipherText ivStr masterKey) w =
  match decryptData_value env cipherText ivStr masterKey with
  | Normal data => (w, Normal data)
  | Thrown _ => (log_line "Decryption failed" w, Thrown decryptFailure)
  end.
Proof.
  unfold decryptData, decryptData_value. rewrite exec_try_catch.
  rewrite exec_bind, exec_of_completion.
  destruct (base64ToBuffer env ivStr) as [iv|e]; [|reflexivity].
  rewrite exec_bind, exec_of_completion.
  destruct (base64ToBuffer env cipherText) as [ct|e]; [|reflexivity].
  rewrite exec_bind, exec_await. cbn [settle fst snd].
  destruct (subtle_decrypt env iv masterKey ct) as [pt|e]; [|reflexivity].
  rewrite exec_of_completion.
  destruct (JSON_parse env _); reflexivity.
Qed.
End Exec.


Lemma base64ToBuffer_bufferToBase64 (env : Env) (b : bytes) :
  atob env (btoa env (string_of_list_byte b)) = Normal (string_of_list_byte b) ->
  base64ToBuffer env (bufferToBase64 env b) = Normal b.
Proof.
  intros H. unfold base64ToBuffer, bufferToBase64. rewrite H.
  by rewrite list_byte_of_string_of_list_byte.
Qed.


(** ** The envelope codec *)

(** C2. For every record [r] and key [k], decrypting what [encryptData]
    produced, with the same key, returns [r]: the codec hands the nonce it
    drew and the ciphertext through base64 and back, so the round trip is
    lossless whenever the built-ins it composes (JSON, UTF-8, AES-GCM,
    base64) are. *)
Theorem decrypt_encrypt_roundtrip (env : Env) (r : VaultItem.t) (k : CryptoKey) (w : World) :
  builtins_lossless env r k (nonce_at env (tick w)) ->
  exec env (decrypt_encrypt env r k) w = (tock w, Normal r).
Proof.
  unfold builtins_lossless, decrypt_encrypt.
  intros (Hjson & Hutf8 & Hiv & Haes).
  rewrite exec_bind, exec_encryptData. unfold encryptData_value.
  destruct (subtle_encrypt env _ k _) as [ct|e] eqn:Henc; [|contradiction].
  destruct Haes as [Hdec Hct].
  rewrite exec_decryptData. unfold decryptData_value. cbn [EncryptedData.cipherText EncryptedData.iv].
  rewrite (base64ToBuffer_bufferToBase64 env _ Hiv).
  rewrite (base64ToBuffer_bufferToBase64 env _ Hct).
  rewrite Hdec, Hutf8, Hjson. reflexivity.
Qed.

Lemma decrypt_encrypt_roundtrip_witness :
  builtins_lossless (Reference.env [] Reference.online) Sample.login Sample.key
    (nonce_at (Reference.env [] Reference.online) (tick Reference.world0)) /\
  exec (Reference.env [] Reference.online)
    (decrypt_encrypt (Reference.env [] Reference.online) Sample.login Sample.key)
    Reference.world0
  = (tock Reference.world0, Normal Sample.login).
Proof.
  assert (H : builtins_lossless (Reference.env [] Reference.online) Sample.login Sample.key
                (nonce_at (Reference.env [] Reference.online) (tick Reference.world0))).
  { vm_compute. repeat split; reflexivity. }
  split; [exact H | exact (decrypt_encrypt_roundtrip _ _ _ _ H)].
Defined.

Lemma exec_encryptEach (env : Env) (k : CryptoKey) :
  (forall iv pt, exists ct, subtle_encrypt env iv k pt = Normal ct) ->
  forall (datas : list VaultItem.t) (w : World),
  exists es,
    exec env (encryptEach env k datas) w = (Nat.iter (length datas) tock w, Normal es) /\
    map EncryptedData.iv es =
    map (fun t => bufferToBase64 env (nonce_at env t)) (seq (tick w) (length datas)).
Proof.
  intros Htotal datas. induction datas as [|d ds IH]; intros w.
  - exists []. split; reflexivity.
  - cbn [encryptEach]. rewrite exec_bind, exec_encryptData. unfold encryptData_value.
    destruct (Htotal (nonce_at env (tick w)) (TextEncoder_encode env (JSON_stringify env d)))
      as [ct Hct].
    rewrite Hct. rewrite exec_bind.
    destruct (IH (tock w)) as (es & Hexec & Hivs). rewrite Hexec.
    eexists. split.
    + cbn [exec length]. rewrite Nat.iter_succ_r. reflexivity.
    + cbn [map length seq EncryptedData.iv]. f_equal. exact Hivs.
Qed.

(** ** [Array.prototype.sort] with [compareItems] *)

Lemma sort_insert_Permutation {A : Type} (cmp : A -> A -> Z) (x : A) (l : list A) :
  sort_insert cmp x l ≡ₚ x :: l.
Proof.
  induction l as [|y l IH]; simpl; [reflexivity|].
  destruct (0 <? cmp x y); [|reflexivity].
  rewrite IH. apply Permutation_swap.
Qed.

Lemma Array_sort_Permutation {A : Type} (cmp : A -> A -> Z) (l : list A) :
  Array_sort cmp l ≡ₚ l.
Proof.
  induction l as [|x l IH]; simpl; [reflexivity|].
  rewrite sort_insert_Permutation. by rewrite IH.
Qed.

Lemma sort_insert_sorted (x : VaultItem.t) (l : list VaultItem.t) :
  StronglySorted newer_first l ->
  StronglySorted newer_first (sort_insert compareItems x l).
Proof.
  induction 1 as [|y l Hl IH Hy]; simpl.
  - repeat constructor.
  - unfold compareItems at 1. destruct (Z.ltb_spec 0 (VaultItem.updatedAt y - VaultItem.updatedAt x)).
    + constructor; [exact IH|].
      rewrite sort_insert_Permutation. constructor; [unfold newer_first; lia|exact Hy].
    + constructor; [by constructor|].
      constructor; [unfold newer_first; lia|].
      eapply Forall_impl; [exact Hy|]. unfold newer_first. intros z Hz. lia.
Qed.

Lemma Array_sort_sorted (l : list VaultItem.t) :
  StronglySorted newer_first (Array_sort compareItems l).
Proof.
  induction l as [|x l IH]; simpl; [constructor|]. by apply sort_insert_sorted.
Qed.

(** Stability: an element never moves past one with the same [updatedAt]. *)
Lemma sort_insert_stable (t : Z) (x : VaultItem.t) (l : list VaultItem.t) :
  filter (fun i => VaultItem.updatedAt i = t) (sort_insert compareItems x l) =
  filter (fun i => VaultItem.updatedAt i = t) (x :: l).
Proof.
  induction l as [|y l IH]; simpl; [reflexivity|].
  unfold compareItems at 1. destruct (Z.ltb_spec 0 (VaultItem.updatedAt y - VaultItem.updatedAt x)).
  - rewrite !filter_cons in *. rewrite IH.
    repeat case_decide; try reflexivity; lia.
  - reflexivity.
Qed.

Lemma Array_sort_stable (t : Z) (l : list VaultItem.t) :
  filter (fun i => VaultItem.updatedAt i = t) (Array_sort compareItems l) =
  filter (fun i => VaultItem.updatedAt i = t) l.
Proof.
  induction l as [|x l IH]; simpl; [reflexivity|].
  rewrite sort_insert_stable, !filter_cons, IH. reflexivity.
Qed.

(** A list sorted newest first is determined by its classes of equal
    [updatedAt], taken in order: whatever stable algorithm the engine runs,
    the result of the sort is the one [Array_sort] computes. *)
Lemma sorted_stable_unique (l1 l2 : list VaultItem.t) :
  StronglySorted newer_first l1 ->
  StronglySorted newer_first l2 ->
  (forall t, filter (fun i => VaultItem.updatedAt i = t) l1 =
             filter (fun i => VaultItem.updatedAt i = t) l2) ->
  l1 = l2.
Proof.
  intros H1. revert l2. induction H1 as [|x l1 Hs1 IH Hx]; intros l2 H2 Hcls.
  - destruct l2 as [|y l2]; [reflexivity|].
    specialize (Hcls (VaultItem.updatedAt y)). rewrite filter_cons in Hcls.
    case_decide; [|congruence]. discriminate.
  - destruct H2 as [|y l2 Hs2 Hy].
    + specialize (Hcls (VaultItem.updatedAt x)). rewrite filter_cons in Hcls.
      case_decide; [|congruence]. discriminate.
    + assert (Hxy : VaultItem.updatedAt x = VaultItem.updatedAt y).
      { assert (x ∈ y :: l2) as Hin1.
        { pose proof (Hcls (VaultItem.updatedAt x)) as E.
          assert (x ∈ filter (fun i => VaultItem.updatedAt i = VaultItem.updatedAt x) (x :: l1)) as Hin
            by (apply list_elem_of_filter; split; [reflexivity|left]).
          rewrite E in Hin. by apply list_elem_of_filter in Hin as [_ ?]. }
        assert (y ∈ x :: l1) as Hin2.
        { pose proof (Hcls (VaultItem.updatedAt y)) as E.
          assert (y ∈ filter (fun i => VaultItem.updatedAt i = VaultItem.updatedAt y) (y :: l2)) as Hin
            by (apply list_elem_of_filter; split; [reflexivity|left]).
          rewrite <- E in Hin. by apply list_elem_of_filter in Hin as [_ ?]. }
        rewrite Forall_forall in Hx, Hy. unfold newer_first in Hx, Hy.
        apply elem_of_cons in Hin1 as [->|Hin1]; [reflexivity|].
        apply elem_of_cons in Hin2 as [->|Hin2]; [reflexivity|].
        specialize (Hx _ Hin2). specialize (Hy _ Hin1). lia. }
      assert (x = y) as ->.
      { specialize (Hcls (VaultItem.updatedAt x)). rewrite !filter_cons in Hcls.
        rewrite decide_True in Hcls by reflexivity.
        rewrite decide_True in Hcls by (symmetry; exact Hxy). congruence. }
      f_equal. apply IH; [exact Hs2|].
      intros t. specialize (Hcls t). rewrite !filter_cons in Hcls.
      case_decide; congruence.
Qed.

(** ** Hydration: [loadVaultItems] *)

Section Hydrate.
Variable env : Env.
Variable key : CryptoKey.

Lemma log_lines_nil (w : World) : log_lines [] w = w.
Proof. destruct w. unfold log_lines. simpl. by rewrite app_nil_r. Qed.

Lemma exec_decryptLoop (batch : list EncryptedVaultItem.t) (acc : list VaultItem.t)
    (w : World) :
  exec env (decryptLoop env key batch acc) w =
  (log_lines (failure_log env key batch) w, Normal (acc ++ hydrated env key batch)).
Proof.
  revert acc w. induction batch as [|encItem rest IH]; intros acc w.
  - simpl. by rewrite log_lines_nil, app_nil_r.
  - cbn [decryptLoop]. rewrite exec_bind, exec_try_catch, exec_bind, exec_decryptData.
    unfold hydrated, failure_log. cbn [omap list_omap flat_map]. unfold hydrate_one at 1 3.
    destruct (decryptData_value env _ _ key) as [data|e].
    + cbn [exec]. rewrite IH. rewrite <- app_assoc. reflexivity.
    + cbn [exec bind console_error]. rewrite IH.
      unfold log_lines, log_line. cbn [app firestore console tick pending].
      rewrite <- !app_assoc. reflexivity.
Qed.

(** The world a [loadVaultItems] call leaves when the fetch resolves. *)
Lemma exec_loadVaultItems (uid : string) (w : World) :
  firestore_fault env (tick w) = None ->
  exec env (loadVaultItems env uid key) w =
  (let batch := firestore_query env (tick w) db.collectionName uid in
   mkWorld
     (setLoadingItems false
        (setItems (fun _ => Array_sort compareItems (hydrated env key batch))
           (setLoadingItems true (app w))))
     (firestore w) (console w ++ failure_log env key batch) (S (tick w)) (pending w),
   Normal tt).
Proof.
  intros Hok. unfold loadVaultItems. cbn [bind setState exec].
  rewrite exec_finally, exec_try_catch, exec_bind.
  unfold db.getItems. rewrite exec_try_catch, exec_bind, exec_await.
  cbn [settle fst snd set_app tick]. rewrite Hok. cbn [faulty exec].
  rewrite exec_bind, exec_decryptLoop. reflexivity.
Qed.

Lemma hydrated_elem (batch : list EncryptedVaultItem.t) (v : VaultItem.t) :
  v ∈ hydrated env key batch <->
  exists encItem, encItem ∈ batch /\ hydrate_one env key encItem = Some v.
Proof. unfold hydrated. apply list_elem_of_omap. Qed.

Lemma hydrated_length (batch : list EncryptedVaultItem.t) :
  (length (hydrated env key batch) + length (undecryptable env key batch))%nat = length batch.
Proof.
  unfold hydrated, undecryptable. induction batch as [|e rest IH]; [reflexivity|].
  cbn [omap list_omap]. rewrite filter_cons.
  destruct (hydrate_one env key e) eqn:E.
  - rewrite decide_False by discriminate. simpl. lia.
  - rewrite decide_True by reflexivity. simpl. lia.
Qed.

Lemma failure_log_length (batch : list EncryptedVaultItem.t) :
  length (failure_log env key batch) = (2 * length (undecryptable env key batch))%nat.
Proof.
  unfold failure_log, undecryptable. induction batch as [|e rest IH]; [reflexivity|].
  cbn [flat_map]. rewrite filter_cons, length_app.
  destruct (hydrate_one env key e) eqn:E.
  - rewrite decide_False by discriminate. simpl. lia.
  - rewrite decide_True by reflexivity. simpl length. lia.
Qed.
End Hydrate.

(** C1 (as amended). [loadVaultItems] decrypts each fetched envelope on its
    own: a failure is logged and skipped, the loop goes on, and every
    envelope that decrypts has its record in the working set, so the working
    set and the failed envelopes together account for the whole batch.  The
    call returns no value and stores no count: the failures only show as
    console lines, two per failed envelope, and the toasts are untouched. *)
Theorem hydrate_isolates_failures (env : Env) (uid : string) (key : CryptoKey) (w : World) :
  firestore_fault env (tick w) = None ->
  let batch := firestore_query env (tick w) db.collectionName uid in
  let run := exec env (loadVaultItems env uid key) w in
  run.2 = Normal tt /\
  items (app run.1) = Array_sort compareItems (hydrated env key batch) /\
  (forall encItem data,
      encItem ∈ batch ->
      decryptData_value env (EncryptedVaultItem.data encItem)
        (EncryptedVaultItem.iv encItem) key = Normal data ->
      VaultItem.with_id data (EncryptedVaultItem.id encItem) ∈ items (app run.1)) /\
  (length (items (app run.1)) + length (undecryptable env key batch))%nat = length batch /\
  console run.1 = console w ++ failure_log env key batch /\
  length (failure_log env key batch) = (2 * length (undecryptable env key batch))%nat /\
  toasts (app run.1) = toasts (app w).
Proof.
  intros Hok batch run. unfold run. rewrite (exec_loadVaultItems env key uid w Hok).
  fold batch. cbn [fst snd app items console toasts setLoadingItems setItems].
  split; [reflexivity|]. split; [reflexivity|]. split; [|split; [|split; [|split]]].
  - intros encItem data Hin Hdec.
    rewrite Array_sort_Permutation. apply hydrated_elem.
    exists encItem. split; [exact Hin|]. unfold hydrate_one. by rewrite Hdec.
  - rewrite Array_sort_Permutation. apply hydrated_length.
  - reflexivity.
  - apply failure_log_length.
  - reflexivity.
Qed.

Lemma hydrate_isolates_failures_witness :
  let env := Reference.env Sample.batch_with_corrupt Reference.online in
  let run := exec env (loadVaultItems env "alice" Sample.key) Reference.world0 in
  firestore_fault env (tick Reference.world0) = None /\
  run.2 = Normal tt /\
  items (app run.1) = [VaultItem.with_id Sample.login "a1"; VaultItem.with_id Sample.note "n7"] /\
  length (undecryptable env Sample.key Sample.batch_with_corrupt) = 1%nat /\
  length (console run.1) = 2%nat.
Proof.
  intros env run.
  destruct (hydrate_isolates_failures env "alice" Sample.key Reference.world0 eq_refl)
    as (Hret & Hitems & _ & _ & Hconsole & _ & _).
  split; [reflexivity|]. split; [exact Hret|]. split; [|split].
  - unfold run. rewrite Hitems. vm_compute. reflexivity.
  - vm_compute. reflexivity.
  - unfold run. rewrite Hconsole. vm_compute. reflexivity.
Defined.

(** C1 (as stated) fails: no count of failures can be read off what
    [loadVaultItems] returns and the state it leaves.  A batch with one
    corrupted envelope and the same batch without it are observed alike. *)
Lemma hydrate_reports_no_failure_count :
  ~ exists count, reports_failure_count count.
Proof.
  intros [count H].
  pose proof (H (Reference.env Sample.batch_with_corrupt Reference.online) "alice"
                Sample.key Reference.world0 eq_refl) as H1.
  pose proof (H (Reference.env Sample.batch_without_corrupt Reference.online) "alice"
                Sample.key Reference.world0 eq_refl) as H0.
  vm_compute in H1. vm_compute in H0. congruence.
Qed.

(** *** The same lines on plaintexts of any shape *)

Lemma decryptData_is_decryptData_any (env : Env) (cipherText ivStr : string) (k : CryptoKey) :
  decryptData env cipherText ivStr k = decryptData_any env (JSON_parse env) cipherText ivStr k.
Proof. reflexivity. Qed.

Lemma decryptLoop_is_decryptLoop_any (env : Env) (key : CryptoKey)
    (batch : list EncryptedVaultItem.t) (acc : list VaultItem.t) :
  decryptLoop env key batch acc
  = decryptLoop_any env (JSON_parse env) VaultItem.with_id key batch acc.
Proof.
  revert acc. induction batch as [|encItem rest IH]; intros acc; [reflexivity|].
  cbn [decryptLoop decryptLoop_any]. f_equal.
Qed.

(** On records, the array [sortedItems_any] returns is the working set
    [loadVaultItems] stores. *)
Lemma exec_sortedItems_any_records (env : Env) (uid : string) (key : CryptoKey) (w : World) :
  firestore_fault env (tick w) = None ->
  (exec env (sortedItems_any env (JSON_parse env) VaultItem.with_id compareItems uid key) w).2
  = Normal (Array_sort compareItems
              (hydrated env key (firestore_query env (tick w) db.collectionName uid))).
Proof.
  intros Hok. unfold sortedItems_any, db.getItems.
  rewrite exec_bind, exec_try_catch, exec_bind, exec_await.
  cbn [settle fst snd]. rewrite Hok. cbn [faulty exec].
  rewrite exec_bind, <- decryptLoop_is_decryptLoop_any, exec_decryptLoop. reflexivity.
Qed.

(** C3 (as stated) fails on a batch that holds a plaintext without
    [updatedAt].  [decryptData] does not look at what it parsed and the
    loop keeps the object; the comparator yields [NaN] against it, which
    the sort reads as no reason to move anything.  Here the undated note
    sits between a login and a card modified after the login: the array
    handed to [setItems] keeps the order of the batch, with the card, the
    most recent record, last. *)
Lemma hydrate_unsorted_on_undated_plaintext :
  let env := Reference.env Sample.batch_with_undated Reference.online in
  let a := PartialVaultItem.of_record Sample.login in
  let c := PartialVaultItem.of_record Sample.card in
  Reference.JSON_parse_partial Sample.undated_note = Normal Sample.undated /\
  PartialVaultItem.updatedAt Sample.undated = None /\
  (exec env (sortedItems_any env Reference.JSON_parse_partial PartialVaultItem.with_id
               comparePartial "alice" Sample.key) Reference.world0).2
  = Normal [a; PartialVaultItem.with_id Sample.undated "n7"; c] /\
  PartialVaultItem.updatedAt a = Some 1700000000005 /\
  PartialVaultItem.updatedAt c = Some 1710000000000 /\
  ~ newer_first_by PartialVaultItem.updatedAt a c /\
  ~ StronglySorted (newer_first_by PartialVaultItem.updatedAt)
      [a; PartialVaultItem.with_id Sample.undated "n7"; c].
Proof.
  intros env a c.
  split; [vm_compute; reflexivity|]. split; [reflexivity|].
  split; [vm_compute; reflexivity|]. split; [reflexivity|]. split; [reflexivity|].
  assert (Hac : ~ newer_first_by PartialVaultItem.updatedAt a c).
  { intros (x & y & Hx & Hy & Hle). cbn in Hx, Hy.
    injection Hx as <-. injection Hy as <-. lia. }
  split; [exact Hac|].
  intros Hsorted. apply StronglySorted_inv in Hsorted as [_ Hfirst].
  apply Forall_inv_tail, Forall_inv in Hfirst. exact (Hac Hfirst).
Qed.

(** C3 (as amended). On a batch whose plaintexts are records, the working
    set [loadVaultItems] produces is sorted by [updatedAt], newest first; it
    holds exactly the decrypted records; records with equal [updatedAt] keep
    the order of the fetched batch, which is the tie-break; these three
    facts leave one list only, so two calls that fetch the same batch
    produce the same list, whatever the state they start from.  The working
    set is the array [sortedItems_any] returns on records. *)
Theorem hydrate_sorted_newest_first (env : Env) (uid : string) (key : CryptoKey) (w : World) :
  firestore_fault env (tick w) = None ->
  let batch := firestore_query env (tick w) db.collectionName uid in
  let working := items (app (exec env (loadVaultItems env uid key) w).1) in
  StronglySorted newer_first working /\
  working ≡ₚ hydrated env key batch /\
  (forall t, filter (fun i => VaultItem.updatedAt i = t) working =
             filter (fun i => VaultItem.updatedAt i = t) (hydrated env key batch)) /\
  (forall l,
      StronglySorted newer_first l ->
      (forall t, filter (fun i => VaultItem.updatedAt i = t) l =
                 filter (fun i => VaultItem.updatedAt i = t) (hydrated env key batch)) ->
      l = working) /\
  (forall w2,
      firestore_fault env (tick w2) = None ->
      firestore_query env (tick w2) db.collectionName uid = batch ->
      items (app (exec env (loadVaultItems env uid key) w2).1) = working) /\
  (exec env (sortedItems_any env (JSON_parse env) VaultItem.with_id compareItems uid key) w).2
  = Normal working.
Proof.
  intros Hok batch working. unfold working.
  rewrite (exec_sortedItems_any_records env uid key w Hok).
  rewrite (exec_loadVaultItems env key uid w Hok). fold batch.
  cbn [fst app items setLoadingItems setItems].
  split; [apply Array_sort_sorted|]. split; [apply Array_sort_Permutation|].
  split; [intros t; apply Array_sort_stable|].
  split.
  { intros l Hsorted Hties. apply sorted_stable_unique; [exact Hsorted|apply Array_sort_sorted|].
    intros t. rewrite Array_sort_stable. apply Hties. }
  split; [|reflexivity].
  intros w2 Hok2 Hsame. rewrite (exec_loadVaultItems env key uid w2 Hok2).
  cbn [fst app items setLoadingItems setItems]. by rewrite Hsame.
Qed.

Lemma hydrate_sorted_newest_first_witness :
  let env := Reference.env Sample.batch Reference.online in
  firestore_fault env (tick Reference.world0) = None /\
  items (app (exec env (loadVaultItems env "alice" Sample.key) Reference.world0).1)
  = [Sample.card; Sample.login; Sample.note] /\
  StronglySorted newer_first
    (items (app (exec env (loadVaultItems env "alice" Sample.key) Reference.world0).1)).
Proof.
  intros env. split; [reflexivity|]. split; [vm_compute; reflexivity|].
  exact (proj1 (hydrate_sorted_newest_first env "alice" Sample.key Reference.world0 eq_refl)).
Defined.

(** C10. Every record [loadVaultItems] puts in the working set comes from
    an envelope of the batch that decrypted, and carries that envelope's
    [id]: whatever [id] the decrypted plaintext held is overwritten. *)
Theorem hydrate_takes_envelope_id (env : Env) (uid : string) (key : CryptoKey) (w : World) :
  firestore_fault env (tick w) = None ->
  let batch := firestore_query env (tick w) db.collectionName uid in
  Forall (fun v =>
            exists encItem data,
              encItem ∈ batch /\
              decryptData_value env (EncryptedVaultItem.data encItem)
                (EncryptedVaultItem.iv encItem) key = Normal data /\
              v = VaultItem.with_id data (EncryptedVaultItem.id encItem) /\
              VaultItem.id v = EncryptedVaultItem.id encItem)
         (items (app (exec env (loadVaultItems env uid key) w).1)).
Proof.
  intros Hok batch. rewrite (exec_loadVaultItems env key uid w Hok). fold batch.
  cbn [fst app items setLoadingItems setItems].
  rewrite Array_sort_Permutation. apply Forall_forall. intros v Hv.
  apply hydrated_elem in Hv as (encItem & Hin & Hone).
  unfold hydrate_one in Hone.
  destruct (decryptData_value env _ _ key) as [data|e] eqn:Hdec; [|discriminate].
  injection Hone as <-. exists encItem, data. auto.
Qed.

Lemma hydrate_takes_envelope_id_witness :
  let env := Reference.env Sample.batch_renamed Reference.online in
  firestore_fault env (tick Reference.world0) = None /\
  decryptData_value env
    (EncryptedVaultItem.data (Sample.renamed "moved" (Sample.sealed 0 Sample.login)))
    (EncryptedVaultItem.iv (Sample.renamed "moved" (Sample.sealed 0 Sample.login)))
    Sample.key = Normal Sample.login /\
  VaultItem.id Sample.login = "a1" /\
  VaultItem.id <$> items (app (exec env (loadVaultItems env "alice" Sample.key)
                                 Reference.world0).1) = ["moved"].
Proof.
  intros env.
  pose proof (hydrate_takes_envelope_id env "alice" Sample.key Reference.world0 eq_refl) as H.
  split; [reflexivity|]. split; [vm_compute; reflexivity|]. split; [reflexivity|].
  cbv zeta in H.
  destruct (items (app (exec env (loadVaultItems env "alice" Sample.key) Reference.world0).1))
    as [|v [|v' l]] eqn:E; try (vm_compute in E; discriminate).
  apply Forall_cons in H as [(encItem & data & Hin & _ & _ & Hid) _].
  cbn [fmap list_fmap]. rewrite Hid.
  change (encItem ∈ Sample.batch_renamed) in Hin.
  apply list_elem_of_singleton in Hin as ->. reflexivity.
Defined.

(** ** Awaited operations of composed programs *)

Section Awaits.
Variable env : Env.

Lemma awaits_bind {A B : Type} (p : Async A) (f : A -> Async B) (w : World) :
  awaits env (bind p f) w =
  awaits env p w ++
  match exec env p w with
  | (w1, Normal a) => awaits env (f a) w1
  | (_, Thrown _) => []
  end.
Proof.
  revert B f w. induction p; intros; simpl; auto.
  destruct (settle env op w) as [r w1]. f_equal. auto.
Qed.

Lemma awaits_try_catch {A : Type} (p : Async A) (h : Error -> Async A) (w : World) :
  awaits env (try_catch p h) w =
  awaits env p w ++
  match exec env p w with
  | (_, Normal _) => []
  | (w1, Thrown e) => awaits env (h e) w1
  end.
Proof.
  revert h w. induction p; intros; simpl; auto.
  destruct (settle env op w) as [r w1]. f_equal. auto.
Qed.

Lemma exec_showToast (message : string) (type : ToastType) (w : World) :
  exec env (showToast message type) w =
  (set_pending
     (fun q => q ++ [Blocked (Timeout 3000) (fun _ =>
        setState (setToasts (filter (fun t => Toast.id t <> pretty (clock env (tick w))))))])
     (set_app (setToasts (fun prev => prev ++ [toast_at env (tick w) message type])) (tock w)),
   Normal tt).
Proof. reflexivity. Qed.

Lemma exec_makeNewItem (item : PartialVaultItem.t) (w : World) :
  exec env (makeNewItem item) w =
  (set_tick (S (stamp_tick env item (tick w))) w, Normal (newItem_at env item (tick w))).
Proof.
  unfold makeNewItem, newItem_at, stamp_tick, assigned_createdAt, assigned_id.
  destruct w as [a f c t q].
  destruct (truthy_string (PartialVaultItem.id item)) as [i|];
    destruct (truthy_number (PartialVaultItem.createdAt item)) as [n|]; reflexivity.
Qed.

Lemma awaits_makeNewItem (item : PartialVaultItem.t) (w : World) :
  awaits env (makeNewItem item) w = [].
Proof.
  unfold makeNewItem.
  destruct (truthy_string (PartialVaultItem.id item)) as [i|];
    destruct (truthy_number (PartialVaultItem.createdAt item)) as [n|]; reflexivity.
Qed.

Lemma stamp_tick_bounds (item : PartialVaultItem.t) (t : nat) :
  (t <= stamp_tick env item t <= t + 2)%nat.
Proof.
  unfold stamp_tick, assigned_createdAt, assigned_id.
  destruct (truthy_string (PartialVaultItem.id item)) as [i|];
    destruct (truthy_number (PartialVaultItem.createdAt item)) as [n|]; simpl; lia.
Qed.
End Awaits.

(** ** CRUD while no session key is held *)

(** C4 (as stated) fails: [handleSaveItem], called while the vault is locked
    (a user is signed in, no session key), raises nothing.  Its promise
    resolves and nothing changes: no store write, no toast, no console
    line. *)
Lemma save_while_locked_returns_silently :
  masterKey Reference.state0 = None /\
  isVaultLocked Reference.state0 = true /\
  exec Sample.plain
    (handleSaveItem Sample.plain (user Reference.state0) (masterKey Reference.state0)
       Sample.draft) Reference.world0
  = (Reference.world0, Normal tt).
Proof. repeat split. Qed.

(** C4 (as amended). A [handleSaveItem] call made while no user or no
    session key is present returns at once without raising: its promise
    resolves, it awaits nothing, and the world (working set, store, toasts,
    console, pending calls) is exactly as before. *)
Theorem save_without_session_is_noop (env : Env) (user : option UserProfile.t)
    (masterKey : option CryptoKey) (item : PartialVaultItem.t) (w : World) :
  user = None \/ masterKey = None ->
  exec env (handleSaveItem env user masterKey item) w = (w, Normal tt) /\
  awaits env (handleSaveItem env user masterKey item) w = [] /\
  dispatch env (Invoke (fun _ => handleSaveItem env user masterKey item)) w = w.
Proof.
  intros [-> | ->].
  - repeat split.
  - destruct user as [u|]; repeat split.
Qed.

Lemma save_without_session_is_noop_witness :
  (user Reference.state0 = None \/ masterKey Reference.state0 = None) /\
  dispatch Sample.plain
    (Invoke (fun st => handleSaveItem Sample.plain (user st) (masterKey st) Sample.draft))
    Reference.world0
  = Reference.world0.
Proof.
  split; [right; reflexivity|].
  exact (proj2 (proj2 (save_without_session_is_noop Sample.plain
                         (user Reference.state0) (masterKey Reference.state0)
                         Sample.draft Reference.world0 (or_intror eq_refl)))).
Defined.

(** ** Unlocking *)

(** C8 (as stated) fails: [unlockVault] with the empty master password is
    not rejected.  The call goes to [importKey] and PBKDF2 with the empty
    password and resolves; the derived key becomes the session key and the
    vault is unlocked, with no error toast and no console line. *)
Lemma unlock_accepts_empty_password :
  let call := unlockVault Sample.plain (Some Reference.alice) EmptyString in
  let run := exec Sample.plain call Reference.world0 in
  (awaits Sample.plain call Reference.world0).*1 =
    [any_op (SubtleImportKey []);
     any_op (SubtleDeriveKey Sample.salt 100000 (mkCryptoKey PBKDF2 []))] /\
  run.2 = Normal tt /\
  masterKey (app run.1) = Some (mkCryptoKey AES_GCM Sample.salt) /\
  isVaultLocked (app run.1) = false /\
  toasts (app run.1) = [] /\
  console run.1 = [].
Proof. vm_compute. repeat split. Qed.

(** C8 (as amended). [unlockVault] does not look at the password.  For every
    password, the empty one included, a call with a signed-in user awaits
    [importKey] on the encoded password and then PBKDF2 with 100000
    iterations; when both resolve, the call resolves too, the derived key
    becomes the session key and the vault is unlocked, and no error is
    raised or shown: the promise is not rejected, no toast is added and
    nothing is written to the console. *)
Theorem unlock_derives_from_any_password (env : Env) (u : UserProfile.t) (password : string)
    (w : World) (salt : bytes) (baseKey key : CryptoKey) :
  deterministicSalt env u = Normal salt ->
  subtle_importKey env (TextEncoder_encode env password) = Normal baseKey ->
  subtle_deriveKey env salt 100000 baseKey = Normal key ->
  let call := unlockVault env (Some u) password in
  let w' := (exec env call w).1 in
  (awaits env call w).*1 =
  [any_op (SubtleImportKey (TextEncoder_encode env password));
   any_op (SubtleDeriveKey salt 100000 baseKey)] /\
  (exec env call w).2 = Normal tt /\
  masterKey (app w') = Some key /\
  isVaultLocked (app w') = false /\
  toasts (app w') = toasts (app w) /\
  console w' = console w.
Proof.
  unfold deterministicSalt. intros Hsalt Himport Hderive.
  unfold unlockVault, deriveKey, getPasswordKey. rewrite Hsalt.
  cbn [of_completion bind await try_catch exec awaits settle].
  rewrite Himport. cbn [of_completion bind await try_catch exec awaits settle].
  rewrite Hderive. split; reflexivity || (repeat split).
Qed.

Lemma unlock_derives_from_any_password_witness :
  let run := exec Sample.plain (unlockVault Sample.plain (Some Reference.alice) EmptyString)
               Reference.world0 in
  deterministicSalt Sample.plain Reference.alice = Normal Sample.salt /\
  subtle_importKey Sample.plain (TextEncoder_encode Sample.plain EmptyString)
  = Normal (mkCryptoKey PBKDF2 []) /\
  subtle_deriveKey Sample.plain Sample.salt 100000 (mkCryptoKey PBKDF2 [])
  = Normal (mkCryptoKey AES_GCM Sample.salt) /\
  run.2 = Normal tt /\
  masterKey (app run.1) = Some (mkCryptoKey AES_GCM Sample.salt).
Proof.
  intros run.
  assert (Hsalt : deterministicSalt Sample.plain Reference.alice = Normal Sample.salt)
    by (vm_compute; reflexivity).
  destruct (unlock_derives_from_any_password Sample.plain Reference.alice
              EmptyString Reference.world0 Sample.salt (mkCryptoKey PBKDF2 [])
              (mkCryptoKey AES_GCM Sample.salt) Hsalt eq_refl eq_refl)
    as (_ & Hret & Hkey & _).
  split; [exact Hsalt|]. split; [reflexivity|]. split; [reflexivity|].
  split; [exact Hret | exact Hkey].
Defined.

(** ** [handleSaveItem] *)

Lemma upsertItem_prepend (newItem : VaultItem.t) (prev : list VaultItem.t) :
  (forall old, old ∈ prev -> VaultItem.id old <> VaultItem.id newItem) ->
  upsertItem newItem prev = newItem :: prev.
Proof.
  intros Hnone. unfold upsertItem, findIndex.
  rewrite (proj2 (list_find_None _ prev)); [reflexivity|].
  apply Forall_forall. intros old Hin Heq.
  apply bool_decide_eq_true in Heq. exact (Hnone old Hin Heq).
Qed.

Lemma upsertItem_replace (newItem old : VaultItem.t) (prev : list VaultItem.t) (idx : nat) :
  prev !! idx = Some old ->
  VaultItem.id old = VaultItem.id newItem ->
  (forall j y, prev !! j = Some y -> (j < idx)%nat -> VaultItem.id y <> VaultItem.id newItem) ->
  upsertItem newItem prev = <[idx := newItem]> prev.
Proof.
  intros Hidx Hid Hfirst. unfold upsertItem, findIndex.
  rewrite (proj2 (list_find_Some _ prev idx old)); [reflexivity|].
  split; [exact Hidx|]. split; [by apply bool_decide_eq_true|].
  intros j y Hj Hlt Heq. apply bool_decide_eq_true in Heq. exact (Hfirst j y Hj Hlt Heq).
Qed.

Section StoreCalls.
Variable env : Env.

Lemma awaits_encryptData (data : VaultItem.t) (masterKey : CryptoKey) (w : World) :
  awaits env (encryptData env data masterKey) w =
  [(any_op (SubtleEncrypt (nonce_at env (tick w)) masterKey
              (TextEncoder_encode env (JSON_stringify env data))), tock w)].
Proof.
  unfold encryptData. cbn [bind call awaits await settle].
  destruct (subtle_encrypt env _ masterKey _); reflexivity.
Qed.

Lemma exec_saveItem (e : EncryptedVaultItem.t) (w : World) :
  exec env (db.saveItem e) w =
  match firestore_fault env (tick w) with
  | Some err => (log_line "Error saving item to Firestore:" (tock w), Thrown err)
  | None => (tock (set_firestore (insert (EncryptedVaultItem.id e) e) w), Normal tt)
  end.
Proof.
  unfold db.saveItem. cbn [await try_catch exec settle].
  destruct (firestore_fault env (tick w)); reflexivity.
Qed.

Lemma awaits_saveItem (e : EncryptedVaultItem.t) (w : World) :
  awaits env (db.saveItem e) w =
  [(any_op (SetDoc db.collectionName (EncryptedVaultItem.id e) e), w)].
Proof.
  unfold db.saveItem. cbn [await try_catch awaits settle].
  destruct (firestore_fault env (tick w)); reflexivity.
Qed.

Lemma exec_deleteItem (i : string) (w : World) :
  exec env (db.deleteItem i) w =
  match firestore_fault env (tick w) with
  | Some err => (log_line "Error deleting item from Firestore:" (tock w), Thrown err)
  | None => (tock (set_firestore (delete i) w), Normal tt)
  end.
Proof.
  unfold db.deleteItem. cbn [await try_catch exec settle].
  destruct (firestore_fault env (tick w)); reflexivity.
Qed.

Lemma exec_getItems (uid : string) (w : World) :
  exec env (db.getItems uid) w =
  match firestore_fault env (tick w) with
  | Some err => (log_line "Error fetching items from Firestore:" (tock w), Thrown err)
  | None => (tock w, Normal (firestore_query env (tick w) db.collectionName uid))
  end.
Proof.
  unfold db.getItems. cbn [await bind try_catch exec settle].
  destruct (firestore_fault env (tick w)); reflexivity.
Qed.
End StoreCalls.

(** ** Nonces *)

Lemma awaits_encryptEach (env : Env) (k : CryptoKey) :
  (forall iv pt, exists ct, subtle_encrypt env iv k pt = Normal ct) ->
  forall (datas : list VaultItem.t) (w : World),
  (awaits env (encryptEach env k datas) w).*1 =
  zip_with (fun iv d => any_op (SubtleEncrypt iv k
                                  (TextEncoder_encode env (JSON_stringify env d))))
    (map (nonce_at env) (seq (tick w) (length datas))) datas.
Proof.
  intros Htotal datas. induction datas as [|d ds IH]; intros w; [reflexivity|].
  cbn [encryptEach]. rewrite awaits_bind, awaits_encryptData, exec_encryptData.
  unfold encryptData_value.
  destruct (Htotal (nonce_at env (tick w)) (TextEncoder_encode env (JSON_stringify env d)))
    as [ct Hct].
  rewrite Hct. rewrite awaits_bind.
  assert (Hend : match exec env (encryptEach env k ds) (tock w) with
                 | (w1, Normal es) =>
                     awaits env (Return (EncryptedData.mk
                                           (bufferToBase64 env ct)
                                           (bufferToBase64 env (nonce_at env (tick w))) :: es)) w1
                 | (_, Thrown _) => []
                 end = []).
  { destruct (exec env (encryptEach env k ds) (tock w)) as [w1 [es|e]]; reflexivity. }
  rewrite Hend, app_nil_r. cbn ["++"]. rewrite fmap_cons.
  cbn [fst length seq map zip_with]. f_equal. apply IH.
Qed.

(** C9. Every [encryptData] call draws its nonce itself, 12 bytes from
    [crypto.getRandomValues]; the caller passes only the record and the key.
    The nonce drawn is the one handed to AES-GCM, and the one returned in
    base64.  Given fresh randomness (the draws of [N] successive calls are
    pairwise distinct), the [N] encryptions under the key use [N] pairwise
    distinct nonces, no nonce is used twice under the key, and the calls
    return [N] pairwise distinct nonces. *)
Theorem encrypt_nonces_distinct (env : Env) (k : CryptoKey) (datas : list VaultItem.t)
    (w : World) :
  let draws := map (nonce_at env) (seq (tick w) (length datas)) in
  let operations := (awaits env (encryptEach env k datas) w).*1 in
  NoDup draws ->
  Forall (fun iv => atob env (btoa env (string_of_list_byte iv))
                    = Normal (string_of_list_byte iv)) draws ->
  (forall iv pt, exists ct, subtle_encrypt env iv k pt = Normal ct) ->
  exists es,
    exec env (encryptEach env k datas) w = (Nat.iter (length datas) tock w, Normal es) /\
    length es = length datas /\
    operations =
      zip_with (fun iv d => any_op (SubtleEncrypt iv k
                                      (TextEncoder_encode env (JSON_stringify env d))))
        draws datas /\
    omap encryption_of operations = map (fun iv => (iv, k)) draws /\
    NoDup (omap encryption_of operations) /\
    Forall2 (fun e iv => base64ToBuffer env (EncryptedData.iv e) = Normal iv) es draws /\
    map EncryptedData.iv es = map (bufferToBase64 env) draws /\
    Forall (fun iv => length iv = 12%nat) draws /\
    NoDup (map EncryptedData.iv es).
Proof.
  intros draws operations Hfresh Hb64 Htotal.
  destruct (exec_encryptEach env k Htotal datas w) as (es & Hexec & Hivs).
  assert (Hmap : map EncryptedData.iv es = map (bufferToBase64 env) draws).
  { rewrite Hivs. unfold draws. rewrite map_map. reflexivity. }
  assert (Hops : operations =
                 zip_with (fun iv d => any_op (SubtleEncrypt iv k
                                                 (TextEncoder_encode env (JSON_stringify env d))))
                   draws datas)
    by apply (awaits_encryptEach env k Htotal).
  assert (Hlen : length draws = length datas)
    by (unfold draws; rewrite length_map, length_seq; reflexivity).
  assert (Huses : omap encryption_of operations = map (fun iv => (iv, k)) draws).
  { rewrite Hops. clear -Hlen. revert Hlen. generalize draws. clear draws.
    induction datas as [|d ds IH]; intros [|iv ivs] Hlen; try discriminate; try reflexivity.
    cbn [zip_with omap list_omap encryption_of map]. f_equal. apply IH. by injection Hlen. }
  exists es. repeat apply conj; [exact Hexec| |exact Hops|exact Huses| | |exact Hmap| | ].
  - rewrite <- (length_map EncryptedData.iv), Hmap, length_map. exact Hlen.
  - rewrite Huses. apply (NoDup_fmap_2_strong (fun iv => (iv, k))); [|exact Hfresh].
    intros x y _ _ Hxy. by injection Hxy.
  - assert (Hall : Forall2 (fun s iv => base64ToBuffer env s = Normal iv)
                     (map EncryptedData.iv es) draws).
    { rewrite Hmap. apply Forall2_fmap_l, Forall_Forall2_diag.
      eapply Forall_impl; [exact Hb64|]. intros iv Hiv.
      by apply base64ToBuffer_bufferToBase64. }
    by apply Forall2_fmap_l in Hall.
  - unfold draws. apply Forall_forall. intros iv Hin.
    apply list_elem_of_fmap in Hin as (t & -> & _). apply nonce_at_length.
  - rewrite Hmap. apply (NoDup_fmap_2_strong (bufferToBase64 env)); [|exact Hfresh].
    intros x y Hx Hy Heq.
    rewrite Forall_forall in Hb64.
    pose proof (base64ToBuffer_bufferToBase64 env x (Hb64 x Hx)) as Ex.
    pose proof (base64ToBuffer_bufferToBase64 env y (Hb64 y Hy)) as Ey.
    rewrite Heq in Ex. congruence.
Qed.

Lemma encrypt_nonces_distinct_witness :
  let env := Reference.env [] Reference.online in
  let datas := [Sample.login; Sample.note; Sample.card] in
  exists es,
    exec env (encryptEach env Sample.key datas) Reference.world0
    = (Nat.iter 3 tock Reference.world0, Normal es) /\
    length es = 3%nat /\
    omap encryption_of (awaits env (encryptEach env Sample.key datas) Reference.world0).*1
    = [(nonce_at env 0, Sample.key); (nonce_at env 1, Sample.key); (nonce_at env 2, Sample.key)] /\
    NoDup (omap encryption_of (awaits env (encryptEach env Sample.key datas) Reference.world0).*1) /\
    NoDup (map EncryptedData.iv es).
Proof.
  intros env datas.
  destruct (encrypt_nonces_distinct env Sample.key datas Reference.world0)
    as (es & Hexec & Hlen & _ & Huses & Hdistinct & _ & _ & _ & Hnodup).
  - apply (bool_decide_unpack _). vm_compute. exact I.
  - repeat constructor.
  - intros iv pt. eexists. reflexivity.
  - exists es. auto.
Defined.

Section Save.
Variable env : Env.
Variable u : UserProfile.t.
Variable k : CryptoKey.
Variable item : PartialVaultItem.t.
Variable w : World.

Let newItem : VaultItem.t := newItem_at env item (tick w).
Let t : nat := store_tick env item (tick w).
Let save : Async unit := handleSaveItem env (Some u) (Some k) item.

(** The call when encryption resolves and the store accepts the write. *)
Lemma handleSaveItem_saved (enc : EncryptedData.t) :
  encryptData_value env newItem k (nonce_at env (pred t)) = Normal enc ->
  firestore_fault env t = None ->
  (awaits env save w).*1 =
    [any_op (SubtleEncrypt (nonce_at env (pred t)) k
               (TextEncoder_encode env (JSON_stringify env newItem)));
     any_op (SetDoc db.collectionName (VaultItem.id newItem) (envelope_of u newItem enc))] /\
  Forall (fun w1 => app w1 = app w /\ firestore w1 = firestore w) (awaits env save w).*2 /\
  (exec env save w).2 = Normal tt /\
  firestore (exec env save w).1 =
    <[VaultItem.id newItem := envelope_of u newItem enc]> (firestore w) /\
  items (app (exec env save w).1) = upsertItem newItem (items (app w)) /\
  masterKey (app (exec env save w).1) = masterKey (app w) /\
  toasts (app (exec env save w).1) =
    toasts (app w) ++ [toast_at env (S t) "Item saved securely" success].
Proof.
  intros Henc Hok. unfold save, handleSaveItem.
  rewrite awaits_bind, awaits_makeNewItem, exec_bind, exec_makeNewItem.
  fold newItem.
  rewrite awaits_try_catch, exec_try_catch, awaits_bind, exec_bind, exec_encryptData,
    awaits_encryptData.
  change (tick (set_tick (S (stamp_tick env item (tick w))) w)) with (pred t).
  rewrite Henc.
  rewrite awaits_bind, exec_bind, awaits_saveItem, exec_saveItem.
  change (tick (tock (set_tick (S (stamp_tick env item (tick w))) w))) with t.
  rewrite Hok.
  repeat split; try reflexivity.
  repeat constructor.
Qed.

(** The call when the store refuses the write (or encryption fails before
    the store is reached). *)
Lemma handleSaveItem_store_down :
  firestore_fault env t <> None ->
  items (app (exec env save w).1) = items (app w) /\
  masterKey (app (exec env save w).1) = masterKey (app w) /\
  firestore (exec env save w).1 = firestore w /\
  exists t', toasts (app (exec env save w).1) =
             toasts (app w) ++ [toast_at env t' "Failed to save item" error].
Proof.
  intros Hdown. unfold save, handleSaveItem.
  rewrite exec_bind, exec_makeNewItem. fold newItem.
  rewrite exec_try_catch, exec_bind, exec_encryptData.
  destruct (encryptData_value env newItem k _) as [enc|e].
  - rewrite exec_bind, exec_saveItem.
    change (tick (tock (set_tick (S (stamp_tick env item (tick w))) w))) with t.
    destruct (firestore_fault env t) as [e|]; [|contradiction].
    repeat split; try reflexivity. eexists. reflexivity.
  - repeat split; try reflexivity. eexists. reflexivity.
Qed.
End Save.

(** C5 (as stated) fails on [createdAt]: a record that already has a
    [createdAt] of [0] does not keep it.  Saving an edit of such a record
    stamps [createdAt] with the current time. *)
Lemma upsert_restamps_zero_createdAt :
  PartialVaultItem.createdAt Sample.epoch_record = Some 0 /\
  VaultItem.createdAt <$> [Sample.epoch_login] = [0] /\
  VaultItem.createdAt <$>
    items (app (exec Sample.plain
                  (handleSaveItem Sample.plain (Some Reference.alice) (Some Sample.key)
                     Sample.epoch_record)
                  (Sample.unlocked [Sample.epoch_login])).1)
  = [1700000000000].
Proof. repeat split; vm_compute; reflexivity. Qed.

(** C5 (as amended). For every record passed to [handleSaveItem] while a
    user and a session key are present, when encryption resolves and the
    store accepts the write: the identifier is the record's own if it has a
    non-empty one and a fresh UUID otherwise; [updatedAt] is the clock read
    during the call; [createdAt] is kept when the record has a non-zero one;
    the call awaits the encryption and then the store write under the
    record's identifier, and the working set and the store are still
    untouched when each is issued; afterwards the store holds the envelope
    under that identifier and the working set has the record in place of the
    first entry with the same identifier, or in front when there is none. *)
Theorem upsert_persists_then_updates (env : Env) (u : UserProfile.t) (k : CryptoKey)
    (item : PartialVaultItem.t) (w : World) (enc : EncryptedData.t) :
  let newItem := newItem_at env item (tick w) in
  let t := store_tick env item (tick w) in
  let save := handleSaveItem env (Some u) (Some k) item in
  encryptData_value env newItem k (nonce_at env (pred t)) = Normal enc ->
  firestore_fault env t = None ->
  (forall i, PartialVaultItem.id item = Some i -> i <> EmptyString -> VaultItem.id newItem = i) /\
  (PartialVaultItem.id item = None -> VaultItem.id newItem = uuid env (tick w)) /\
  (exists s, (tick w <= s <= tick w + 2)%nat /\ VaultItem.updatedAt newItem = clock env s) /\
  (forall c, PartialVaultItem.createdAt item = Some c -> c <> 0 ->
             VaultItem.createdAt newItem = c) /\
  (awaits env save w).*1 =
    [any_op (SubtleEncrypt (nonce_at env (pred t)) k
               (TextEncoder_encode env (JSON_stringify env newItem)));
     any_op (SetDoc db.collectionName (VaultItem.id newItem) (envelope_of u newItem enc))] /\
  Forall (fun w1 => app w1 = app w /\ firestore w1 = firestore w) (awaits env save w).*2 /\
  firestore (exec env save w).1 =
    <[VaultItem.id newItem := envelope_of u newItem enc]> (firestore w) /\
  items (app (exec env save w).1) = upsertItem newItem (items (app w)) /\
  (forall prev,
      (forall old, old ∈ prev -> VaultItem.id old <> VaultItem.id newItem) ->
      upsertItem newItem prev = newItem :: prev) /\
  (forall prev idx old,
      prev !! idx = Some old ->
      VaultItem.id old = VaultItem.id newItem ->
      (forall j y, prev !! j = Some y -> (j < idx)%nat ->
                   VaultItem.id y <> VaultItem.id newItem) ->
      upsertItem newItem prev = <[idx := newItem]> prev).
Proof.
  intros newItem t save Henc Hok.
  destruct (handleSaveItem_saved env u k item w enc Henc Hok)
    as (Hops & Hworlds & _ & Hstore & Hitems & _ & _).
  split; [|split; [|split; [|split; [|split; [|split; [|split; [|split; [|split]]]]]]]].
  - intros i Hi Hne. unfold newItem, newItem_at, assigned_id, truthy_string. cbn [VaultItem.id].
    rewrite Hi. by rewrite decide_False.
  - intros Hi. unfold newItem, newItem_at, assigned_id, truthy_string. cbn [VaultItem.id].
    by rewrite Hi.
  - exists (stamp_tick env item (tick w)). split; [apply stamp_tick_bounds|reflexivity].
  - intros c Hc Hne. unfold newItem, newItem_at, assigned_createdAt, truthy_number.
    cbn [VaultItem.createdAt]. rewrite Hc. by rewrite decide_False.
  - exact Hops.
  - exact Hworlds.
  - exact Hstore.
  - exact Hitems.
  - intros prev. apply upsertItem_prepend.
  - intros prev idx old. apply upsertItem_replace.
Qed.

Lemma upsert_persists_then_updates_witness :
  exists enc newItem,
    encryptData_value Sample.plain newItem Sample.key (nonce_at Sample.plain 3) = Normal enc /\
    firestore_fault Sample.plain 4 = None /\
    newItem = newItem_at Sample.plain Sample.draft 0 /\
    VaultItem.id newItem = "uuid-0" /\
    firestore (exec Sample.plain
                 (handleSaveItem Sample.plain (Some Reference.alice) (Some Sample.key)
                    Sample.draft) (Sample.unlocked [Sample.login])).1
    = {[ "uuid-0" := envelope_of Reference.alice newItem enc ]} /\
    items (app (exec Sample.plain
                  (handleSaveItem Sample.plain (Some Reference.alice) (Some Sample.key)
                     Sample.draft) (Sample.unlocked [Sample.login])).1)
    = [newItem; Sample.login].
Proof.
  eexists. eexists.
  assert (Henc : encryptData_value Sample.plain (newItem_at Sample.plain Sample.draft 0)
                   Sample.key (nonce_at Sample.plain 3) = Normal _)
    by (vm_compute; reflexivity).
  pose proof (upsert_persists_then_updates Sample.plain Reference.alice Sample.key
                Sample.draft (Sample.unlocked [Sample.login]) _ Henc eq_refl)
    as (_ & Hid & _ & _ & _ & _ & Hstore & Hitems & Hfront & _).
  split; [exact Henc|]. split; [reflexivity|]. split; [reflexivity|].
  split; [reflexivity|]. split.
  - rewrite Hstore. reflexivity.
  - rewrite Hitems. apply Hfront.
    intros old Hin. apply list_elem_of_singleton in Hin as ->. discriminate.
Defined.

(** ** A failing remote store *)

(** C6 (as stated) fails: a failure of the remote store is not surfaced to
    the caller.  With the store unreachable, the promises of
    [handleSaveItem], [handleDeleteItem] and [loadVaultItems] all resolve:
    each handler catches the error itself. *)
Lemma store_failure_is_not_raised :
  (forall t, firestore_fault Sample.outage t = Some (mkError "unavailable")) /\
  (exec Sample.outage
     (handleSaveItem Sample.outage (Some Reference.alice) (Some Sample.key) Sample.draft)
     (Sample.unlocked [Sample.login])).2 = Normal tt /\
  (exec Sample.outage (handleDeleteItem "a1") (Sample.unlocked [Sample.login])).2 = Normal tt /\
  (exec Sample.outage (loadVaultItems Sample.outage "alice" Sample.key)
     (Sample.unlocked [Sample.login])).2 = Normal tt.
Proof. split; [reflexivity|]. vm_compute. repeat split. Qed.

(** C6 (as amended). When the remote store operation of a [handleSaveItem],
    [handleDeleteItem] or [loadVaultItems] call fails with [err], the
    handler catches the error: the call's promise resolves, the failure is
    reported by an error toast and on the console only, and the working
    set, the session key and the store are exactly as before the call.
    The operation that fails is the call's own: the [setDoc] that follows
    the encryption, the [deleteDoc] that follows the confirmation, the
    [getDocs] of the hydration. *)
Theorem store_failure_leaves_state (env : Env) (w : World) (err : Error) :
  (forall u k item enc,
      let newItem := newItem_at env item (tick w) in
      let t := store_tick env item (tick w) in
      let save := handleSaveItem env (Some u) (Some k) item in
      encryptData_value env newItem k (nonce_at env (pred t)) = Normal enc ->
      firestore_fault env t = Some err ->
      (awaits env save w).*1 =
        [any_op (SubtleEncrypt (nonce_at env (pred t)) k
                   (TextEncoder_encode env (JSON_stringify env newItem)));
         any_op (SetDoc db.collectionName (VaultItem.id newItem) (envelope_of u newItem enc))] /\
      (exec env save w).2 = Normal tt /\
      items (app (exec env save w).1) = items (app w) /\
      masterKey (app (exec env save w).1) = masterKey (app w) /\
      firestore (exec env save w).1 = firestore w /\
      console (exec env save w).1 =
        console w ++ ["Error saving item to Firestore:"; message_of err] /\
      toasts (app (exec env save w).1) =
        toasts (app w) ++ [toast_at env (S t) "Failed to save item" error]) /\
  (forall i,
      let delete := handleDeleteItem i in
      confirm_answer env (tick w) = true ->
      firestore_fault env (S (tick w)) = Some err ->
      (awaits env delete w).*1 = [any_op (DeleteDoc db.collectionName i)] /\
      (exec env delete w).2 = Normal tt /\
      items (app (exec env delete w).1) = items (app w) /\
      masterKey (app (exec env delete w).1) = masterKey (app w) /\
      firestore (exec env delete w).1 = firestore w /\
      console (exec env delete w).1 = console w ++ ["Error deleting item from Firestore:"] /\
      toasts (app (exec env delete w).1) =
        toasts (app w) ++ [toast_at env (S (S (tick w))) "Failed to delete item" error]) /\
  (forall uid key,
      let load := loadVaultItems env uid key in
      firestore_fault env (tick w) = Some err ->
      (awaits env load w).*1 = [any_op (GetDocs db.collectionName uid)] /\
      (exec env load w).2 = Normal tt /\
      items (app (exec env load w).1) = items (app w) /\
      masterKey (app (exec env load w).1) = masterKey (app w) /\
      firestore (exec env load w).1 = firestore w /\
      loadingItems (app (exec env load w).1) = false /\
      console (exec env load w).1 =
        console w ++ ["Error fetching items from Firestore:"; message_of err] /\
      toasts (app (exec env load w).1) =
        toasts (app w) ++ [toast_at env (S (tick w)) "Error loading vault from cloud" error]).
Proof.
  split; [|split].
  - intros u k item enc newItem t save Henc Hdown. unfold save, handleSaveItem.
    rewrite awaits_bind, awaits_makeNewItem, exec_bind, exec_makeNewItem.
    fold newItem.
    rewrite awaits_try_catch, exec_try_catch, awaits_bind, exec_bind, exec_encryptData,
      awaits_encryptData.
    change (tick (set_tick (S (stamp_tick env item (tick w))) w)) with (pred t).
    rewrite Henc.
    rewrite awaits_bind, exec_bind, awaits_saveItem, exec_saveItem.
    change (tick (tock (set_tick (S (stamp_tick env item (tick w))) w))) with t.
    rewrite Hdown.
    repeat split; try reflexivity.
    cbn. by rewrite <- app_assoc.
  - intros i delete Hyes Hdown. unfold delete, handleDeleteItem.
    rewrite awaits_bind, exec_bind, exec_call. cbn [builtin call awaits app]. rewrite Hyes.
    rewrite awaits_try_catch, exec_try_catch, awaits_bind, exec_bind, exec_deleteItem.
    cbn [tick tock]. rewrite Hdown.
    unfold db.deleteItem. cbn [await try_catch awaits settle tick tock]. rewrite Hdown.
    repeat split; reflexivity.
  - intros uid key load Hdown. unfold load, loadVaultItems, db.getItems.
    cbn [bind setState try_catch finally await exec awaits settle set_app tick faulty
         of_completion console_error].
    rewrite Hdown.
    repeat split; try reflexivity.
    cbn. by rewrite <- app_assoc.
Qed.

Lemma store_failure_leaves_state_witness :
  let w := Sample.unlocked [Sample.login] in
  let save := handleSaveItem Sample.outage (Some Reference.alice) (Some Sample.key) Sample.draft in
  let load := loadVaultItems Sample.outage "alice" Sample.key in
  (exists enc,
      encryptData_value Sample.outage (newItem_at Sample.outage Sample.draft 0) Sample.key
        (nonce_at Sample.outage 3) = Normal enc) /\
  firestore_fault Sample.outage 4 = Some (mkError "unavailable") /\
  confirm_answer Sample.outage 0 = true /\
  firestore_fault Sample.outage 1 = Some (mkError "unavailable") /\
  firestore_fault Sample.outage 0 = Some (mkError "unavailable") /\
  ((exec Sample.outage save w).2 = Normal tt /\
   items (app (exec Sample.outage save w).1) = [Sample.login]) /\
  ((exec Sample.outage (handleDeleteItem "a1") w).2 = Normal tt /\
   items (app (exec Sample.outage (handleDeleteItem "a1") w).1) = [Sample.login]) /\
  ((exec Sample.outage load w).2 = Normal tt /\
   items (app (exec Sample.outage load w).1) = [Sample.login]).
Proof.
  intros w save load.
  assert (Henc : encryptData_value Sample.outage (newItem_at Sample.outage Sample.draft 0)
                   Sample.key (nonce_at Sample.outage 3) = Normal _)
    by (vm_compute; reflexivity).
  destruct (store_failure_leaves_state Sample.outage w (mkError "unavailable"))
    as (Hsave & Hdelete & Hload).
  destruct (Hsave Reference.alice Sample.key Sample.draft _ Henc eq_refl)
    as (_ & Hs1 & Hs2 & _).
  destruct (Hdelete "a1" eq_refl eq_refl) as (_ & Hd1 & Hd2 & _).
  destruct (Hload "alice" Sample.key eq_refl) as (_ & Hl1 & Hl2 & _).
  split; [eexists; exact Henc|].
  repeat split; assumption.
Defined.

(** [handleDeleteItem] does not consult the session: whatever the user and
    the key, a confirmed call deletes the document and filters the working
    set. *)
Lemma handleDeleteItem_deleted (env : Env) (w : World) (i : string) :
  confirm_answer env (tick w) = true ->
  firestore_fault env (S (tick w)) = None ->
  (exec env (handleDeleteItem i) w).2 = Normal tt /\
  firestore (exec env (handleDeleteItem i) w).1 = delete i (firestore w) /\
  items (app (exec env (handleDeleteItem i) w).1) =
    filter (fun v => VaultItem.id v <> i) (items (app w)).
Proof.
  intros Hyes Hok. unfold handleDeleteItem.
  rewrite exec_bind, exec_call. cbn [builtin]. rewrite Hyes.
  rewrite exec_try_catch, exec_bind, exec_deleteItem. cbn [tick tock]. rewrite Hok.
  repeat split; reflexivity.
Qed.

(** ** Signing out *)

(** The listener discards the session at once: after it has run with no
    user, the working set is empty, the session key is absent and the vault
    is locked. *)
Lemma sign_out_discards_session (env : Env) (w : World) :
  let w' := dispatch env (Invoke (fun _ => onAuthStateChanged None)) w in
  user (app w') = None /\
  masterKey (app w') = None /\
  isVaultLocked (app w') = true /\
  items (app w') = [] /\
  pending w' = pending w.
Proof. repeat split. Qed.

(** Unlocking, up to the moment hydration starts: the call awaits
    [importKey] and PBKDF2, stores the key, unlocks, and starts
    [loadVaultItems] without awaiting it. *)
Lemma unlock_starts_hydrate (env : Env) (u : UserProfile.t) (password : string)
    (w : World) (salt : bytes) (baseKey key : CryptoKey) :
  deterministicSalt env u = Normal salt ->
  subtle_importKey env (TextEncoder_encode env password) = Normal baseKey ->
  subtle_deriveKey env salt 100000 baseKey = Normal key ->
  user (app w) = Some u ->
  pending w = [] ->
  run_events env [Invoke (fun st => unlockVault env (user st) password); Settle 0; Settle 0] w =
  start env (loadVaultItems env (UserProfile.uid u) key)
    (set_app (fun s => setIsVaultLocked false (setMasterKey (Some key) s)) w).
Proof.
  intros Hsalt Himport Hderive Huser Hpending.
  destruct w as [a f c t q]. cbn [app pending] in Huser, Hpending. subst q.
  unfold run_events, deterministicSalt in *. cbn [fold_left].
  unfold dispatch at 3. cbn [app]. rewrite Huser.
  unfold unlockVault, deriveKey, getPasswordKey. unfold start. rewrite Hsalt.
  simpl. rewrite Himport. simpl. rewrite Hderive. reflexivity.
Qed.

(** In every environment: when the user signs out while the hydration
    started by [unlockVault] awaits its fetch, the sign-out empties the
    working set and drops the key, the hydration stays pending, and when it
    resumes it fills the working set with every record of the fetched batch
    that decrypts under the key it was started with. *)
Lemma hydrate_outlives_sign_out (env : Env) (u : UserProfile.t) (password : string)
    (w : World) (salt : bytes) (baseKey key : CryptoKey) :
  deterministicSalt env u = Normal salt ->
  subtle_importKey env (TextEncoder_encode env password) = Normal baseKey ->
  subtle_deriveKey env salt 100000 baseKey = Normal key ->
  user (app w) = Some u ->
  pending w = [] ->
  let w1 := run_events env
              [Invoke (fun st => unlockVault env (user st) password); Settle 0; Settle 0;
               Invoke (fun _ => onAuthStateChanged None)] w in
  user (app w1) = None /\ masterKey (app w1) = None /\ items (app w1) = [] /\
  exists task,
    pending w1 = [task] /\
    (firestore_fault env (tick w1) = None ->
     items (app (resume env task w1).1) =
     Array_sort compareItems
       (hydrated env key (firestore_query env (tick w1) db.collectionName (UserProfile.uid u)))).
Proof.
  intros Hsalt Himport Hderive Huser Hpending w1.
  assert (E : w1 = dispatch env (Invoke (fun _ => onAuthStateChanged None))
                     (start env (loadVaultItems env (UserProfile.uid u) key)
                        (set_app (fun s => setIsVaultLocked false (setMasterKey (Some key) s)) w))).
  { unfold w1.
    change [Invoke (fun st => unlockVault env (user st) password); Settle 0; Settle 0;
            Invoke (fun _ => onAuthStateChanged None)]
      with ([Invoke (fun st => unlockVault env (user st) password); Settle 0; Settle 0]
            ++ [Invoke (fun _ => onAuthStateChanged None)]).
    unfold run_events. rewrite fold_left_app.
    fold (run_events env [Invoke (fun st => unlockVault env (user st) password); Settle 0; Settle 0] w).
    rewrite (unlock_starts_hydrate env u password w salt baseKey key) by assumption.
    reflexivity. }
  clearbody w1. subst w1.
  split; [reflexivity|]. split; [reflexivity|]. split; [reflexivity|].
  eexists. split.
  - cbn [pending dispatch start advance loadVaultItems bind setState set_app enqueue
         onAuthStateChanged finally try_catch db.getItems await set_pending].
    rewrite Hpending. reflexivity.
  - intros Hok.
    match goal with |- context [resume env ?t ?w'] =>
      replace (resume env t w') with (exec env (loadVaultItems env (UserProfile.uid u) key) w')
    end.
    + rewrite exec_loadVaultItems by exact Hok. reflexivity.
    + destruct w as [[us al mk lk it lo to mo ed] f c t q]. reflexivity.
Qed.

(** C7 fails on the code when a hydration is in flight.  The user unlocks,
    and signs out while [loadVaultItems] awaits the fetch: right after the
    sign-out the working set is empty and the key is absent, but the call is
    still pending, and once its fetch and decryption settle it stores the
    decrypted record in the working set of the signed-out, locked
    session. *)
Theorem sign_out_during_hydrate_keeps_records :
  let w1 := run_events Sample.remote Sample.unlock_then_sign_out Reference.world0 in
  let w2 := run_events Sample.remote Sample.hydrate_settles w1 in
  (user (app w1) = None /\ masterKey (app w1) = None /\ isVaultLocked (app w1) = true /\
   items (app w1) = [] /\ length (pending w1) = 1%nat) /\
  (user (app w2) = None /\ masterKey (app w2) = None /\ isVaultLocked (app w2) = true /\
   items (app w2) = [Sample.login] /\ pending w2 = []).
Proof. vm_compute. repeat split. Qed.

(** * Further properties of the code *)

(** ** The codec's failures *)



(** X2. A salt made by [generateSalt] is the base64 text of 16 random
    bytes, and [stringToSalt] gives those 16 bytes back. *)
Theorem generateSalt_stringToSalt (env : Env) (w : World) :
  let drawn := builtin env (GetRandomValues 16) (tick w) in
  atob env (btoa env (string_of_list_byte drawn)) = Normal (string_of_list_byte drawn) ->
  exists saltStr,
    exec env (generateSalt env) w = (tock w, Normal saltStr) /\
    stringToSalt env saltStr = Normal drawn /\
    length drawn = 16%nat.
Proof.
  intros drawn Hb64. exists (bufferToBase64 env drawn). split; [reflexivity|]. split.
  - unfold stringToSalt, base64ToBuffer, bufferToBase64. rewrite Hb64.
    by rewrite list_byte_of_string_of_list_byte.
  - reflexivity.
Qed.

Lemma generateSalt_stringToSalt_witness :
  exists saltStr,
    exec Sample.plain (generateSalt Sample.plain) Reference.world0
    = (tock Reference.world0, Normal saltStr) /\
    (length <$> match stringToSalt Sample.plain saltStr with
                | Normal b => Some b | Thrown _ => None end) = Some 16%nat.
Proof.
  destruct (generateSalt_stringToSalt Sample.plain Reference.world0) as (s & He & Hs & Hl).
  - vm_compute. reflexivity.
  - exists s. split; [exact He|]. rewrite Hs. cbn [fmap option_fmap option_map]. by rewrite Hl.
Defined.

(** ** Unlocking *)

(** X3. When key derivation fails in [unlockVault] (the salt does not
    decode, [importKey] rejects, or PBKDF2 rejects), the error is caught:
    the call resolves, the session key, the lock, the working set and the
    loading flag stay as they were, no hydration starts, the error message
    is logged and an error toast is shown.  PBKDF2 is not invoked when
    [importKey] rejects, and nothing is awaited when the salt does not
    decode. *)
Theorem unlock_failure_stays_locked (env : Env) (u : UserProfile.t) (password : string)
    (w : World) (cause : Error) :
  derivation_outcome env u password = Thrown cause ->
  let run := exec env (unlockVault env (Some u) password) w in
  run.2 = Normal tt /\
  masterKey (app run.1) = masterKey (app w) /\
  isVaultLocked (app run.1) = isVaultLocked (app w) /\
  items (app run.1) = items (app w) /\
  loadingItems (app run.1) = loadingItems (app w) /\
  firestore run.1 = firestore w /\
  console run.1 = console w ++ [message_of cause] /\
  toasts (app run.1) = toasts (app w) ++ [toast_at env (tick w) "Failed to unlock vault" error] /\
  (awaits env (unlockVault env (Some u) password) w).*1 = derivation_awaits env u password.
Proof.
  unfold derivation_outcome, derivation_awaits, deterministicSalt.
  intros Hfail. unfold unlockVault, deriveKey, getPasswordKey.
  destruct (stringToSalt env _) as [salt|e].
  - cbn [of_completion bind await try_catch exec awaits settle].
    destruct (subtle_importKey env _) as [baseKey|e].
    + cbn [of_completion bind await try_catch exec awaits settle].
      rewrite Hfail. repeat split.
    + injection Hfail as ->. repeat split.
  - injection Hfail as ->. repeat split.
Qed.

Lemma unlock_failure_stays_locked_witness :
  derivation_outcome Scenario.no_pbkdf2 Reference.alice "pw"
  = Thrown (mkError "OperationError") /\
  isVaultLocked (app (exec Scenario.no_pbkdf2
                        (unlockVault Scenario.no_pbkdf2 (Some Reference.alice) "pw")
                        Reference.world0).1) = true /\
  masterKey (app (exec Scenario.no_pbkdf2
                    (unlockVault Scenario.no_pbkdf2 (Some Reference.alice) "pw")
                    Reference.world0).1) = None.
Proof.
  assert (H : derivation_outcome Scenario.no_pbkdf2 Reference.alice "pw"
              = Thrown (mkError "OperationError")) by (vm_compute; reflexivity).
  destruct (unlock_failure_stays_locked Scenario.no_pbkdf2 Reference.alice "pw"
              Reference.world0 _ H) as (_ & Hk & Hl & _).
  split; [exact H|]. split; [rewrite Hl|rewrite Hk]; reflexivity.
Defined.

(** X4. Unlocking, through the event loop.  When derivation succeeds the
    key is stored and the vault is unlocked at once, with the loading flag
    up and the old working set still in place, and exactly one call is
    pending: the hydration.  When that call's fetch resolves, the working
    set becomes the sorted decrypted batch, the loading flag drops, and the
    key and the lock are as unlocking left them. *)
Theorem unlock_then_hydrate (env : Env) (u : UserProfile.t) (password : string)
    (w : World) (key : CryptoKey) :
  derivation_outcome env u password = Normal key ->
  user (app w) = Some u ->
  pending w = [] ->
  let w1 := run_events env
              [Invoke (fun st => unlockVault env (user st) password); Settle 0; Settle 0] w in
  masterKey (app w1) = Some key /\
  isVaultLocked (app w1) = false /\
  loadingItems (app w1) = true /\
  items (app w1) = items (app w) /\
  exists task,
    pending w1 = [task] /\
    (firestore_fault env (tick w1) = None ->
     let w2 := (resume env task w1).1 in
     items (app w2) =
       Array_sort compareItems
         (hydrated env key (firestore_query env (tick w1) db.collectionName (UserProfile.uid u))) /\
     loadingItems (app w2) = false /\
     masterKey (app w2) = Some key /\
     isVaultLocked (app w2) = false).
Proof.
  intros Hkey Huser Hpending w1. unfold derivation_outcome in Hkey.
  destruct (deterministicSalt env u) as [salt|e] eqn:Hsalt; [|discriminate].
  destruct (subtle_importKey env _) as [baseKey|e] eqn:Himport; [|discriminate].
  unfold w1.
  rewrite (unlock_starts_hydrate env u password w salt baseKey key Hsalt Himport Hkey Huser Hpending).
  split; [reflexivity|]. split; [reflexivity|]. split; [reflexivity|]. split; [reflexivity|].
  eexists. split.
  - cbn [pending start advance loadVaultItems bind setState set_app enqueue
         finally try_catch db.getItems await set_pending].
    rewrite Hpending. reflexivity.
  - intros Hok.
    match goal with |- context [resume env ?t ?w'] =>
      replace (resume env t w') with (exec env (loadVaultItems env (UserProfile.uid u) key) w')
    end.
    + rewrite exec_loadVaultItems by exact Hok. repeat split.
    + destruct w as [[us al mk lk it lo to mo ed] f c t q]. reflexivity.
Qed.

Lemma unlock_then_hydrate_witness :
  derivation_outcome Sample.remote Reference.alice Sample.password = Normal Sample.sessionKey /\
  user (app Reference.world0) = Some Reference.alice /\
  masterKey (app (run_events Sample.remote
                    [Invoke (fun st => unlockVault Sample.remote (user st) Sample.password);
                     Settle 0; Settle 0] Reference.world0)) = Some Sample.sessionKey.
Proof.
  assert (H : derivation_outcome Sample.remote Reference.alice Sample.password
              = Normal Sample.sessionKey) by (vm_compute; reflexivity).
  split; [exact H|]. split; [reflexivity|].
  exact (proj1 (unlock_then_hydrate Sample.remote Reference.alice Sample.password
                  Reference.world0 Sample.sessionKey H eq_refl eq_refl)).
Defined.

(** ** Hydration *)

(** X5. A [loadVaultItems] call never rejects, whatever the store and the
    envelopes do; it always ends with the loading flag down; and it never
    touches the user, the session key, the lock or the store. *)
Theorem loadVaultItems_always_settles (env : Env) (uid : string) (key : CryptoKey) (w : World) :
  let run := exec env (loadVaultItems env uid key) w in
  run.2 = Normal tt /\
  loadingItems (app run.1) = false /\
  user (app run.1) = user (app w) /\
  masterKey (app run.1) = masterKey (app w) /\
  isVaultLocked (app run.1) = isVaultLocked (app w) /\
  firestore run.1 = firestore w.
Proof.
  intros run. unfold run.
  destruct (firestore_fault env (tick w)) as [e|] eqn:Hfault.
  - unfold loadVaultItems. cbn [bind setState exec].
    rewrite exec_finally, exec_try_catch, exec_bind, exec_getItems.
    cbn [set_app tick]. rewrite Hfault. repeat split.
  - rewrite (exec_loadVaultItems env key uid w Hfault). repeat split.
Qed.

(** X6. A key under which no envelope of the batch decrypts (a wrong master
    password) is not told apart from an empty vault: the call resolves, the
    working set is empty and no toast is added; the failures only reach the
    console. *)
Theorem hydrate_with_wrong_key_looks_empty (env : Env) (uid : string) (key : CryptoKey)
    (w : World) :
  firestore_fault env (tick w) = None ->
  let batch := firestore_query env (tick w) db.collectionName uid in
  Forall (fun encItem => hydrate_one env key encItem = None) batch ->
  let run := exec env (loadVaultItems env uid key) w in
  run.2 = Normal tt /\
  items (app run.1) = [] /\
  toasts (app run.1) = toasts (app w) /\
  length (console run.1) = (length (console w) + 2 * length batch)%nat.
Proof.
  intros Hok batch Hnone run. unfold run.
  rewrite (exec_loadVaultItems env key uid w Hok). fold batch.
  cbn [fst snd app items toasts console setLoadingItems setItems].
  clearbody batch.
  assert (Hall : undecryptable env key batch = batch).
  { unfold undecryptable. induction Hnone as [|e l He _ IH]; [reflexivity|].
    rewrite filter_cons. rewrite decide_True by exact He. by rewrite IH. }
  assert (Hempty : hydrated env key batch = []).
  { clear Hall. unfold hydrated. induction Hnone as [|e l He _ IH]; [reflexivity|].
    cbn [omap list_omap]. by rewrite He, IH. }
  rewrite Hempty. repeat split.
  rewrite length_app, failure_log_length, Hall. reflexivity.
Qed.

Lemma hydrate_with_wrong_key_looks_empty_witness :
  let env := Reference.env Sample.batch Reference.online in
  firestore_fault env (tick Reference.world0) = None /\
  Forall (fun encItem => hydrate_one env Sample.sessionKey encItem = None) Sample.batch /\
  items (app (exec env (loadVaultItems env "alice" Sample.sessionKey) Reference.world0).1) = [].
Proof.
  intros env.
  assert (H : Forall (fun encItem => hydrate_one env Sample.sessionKey encItem = None)
                Sample.batch) by (repeat constructor).
  split; [reflexivity|]. split; [exact H|].
  exact (proj1 (proj2 (hydrate_with_wrong_key_looks_empty env "alice" Sample.sessionKey
                         Reference.world0 eq_refl H))).
Defined.

(** X7. Hydration keeps identifiers unique: when the envelopes of the
    fetched batch have pairwise distinct identifiers, so have the records of
    the working set. *)
Theorem hydrate_keeps_ids_unique (env : Env) (uid : string) (key : CryptoKey) (w : World) :
  firestore_fault env (tick w) = None ->
  NoDup (EncryptedVaultItem.id <$> firestore_query env (tick w) db.collectionName uid) ->
  NoDup (VaultItem.id <$> items (app (exec env (loadVaultItems env uid key) w).1)).
Proof.
  intros Hok Hnodup. rewrite (exec_loadVaultItems env key uid w Hok).
  cbn [fst app items setLoadingItems setItems].
  rewrite Array_sort_Permutation.
  revert Hnodup. generalize (firestore_query env (tick w) db.collectionName uid).
  intros batch Hnodup.
  refine (sublist_NoDup _ _ Hnodup _). clear Hnodup.
  unfold hydrated. induction batch as [|e rest IH]; [constructor|].
  cbn [omap list_omap fmap list_fmap]. unfold hydrate_one at 1.
  destruct (decryptData_value env _ _ key) as [data|err].
  - cbn [fmap list_fmap VaultItem.id VaultItem.with_id]. by apply sublist_skip.
  - by apply sublist_cons.
Qed.

Lemma hydrate_keeps_ids_unique_witness :
  let env := Reference.env Sample.batch Reference.online in
  firestore_fault env (tick Reference.world0) = None /\
  NoDup (EncryptedVaultItem.id <$> Sample.batch) /\
  NoDup (VaultItem.id <$>
           items (app (exec env (loadVaultItems env "alice" Sample.key) Reference.world0).1)).
Proof.
  intros env.
  assert (H : NoDup (EncryptedVaultItem.id <$> Sample.batch))
    by (apply (bool_decide_unpack _); vm_compute; exact I).
  split; [reflexivity|]. split; [exact H|].
  exact (hydrate_keeps_ids_unique env "alice" Sample.key Reference.world0 eq_refl H).
Defined.

(** ** The authentication listener, signing out, toasts *)

(** X8. [s.split('@')[0]], as the listener uses it for the display name:
    the result is the part of [s] before its first [@] (all of [s] when it
    has none), and holds no [@]. *)
Theorem before_at_is_prefix_before_first_at (s : string) :
  ("@"%char ∉ list_ascii_of_string (before_at s)) /\
  (exists rest,
      s = before_at s +:+ rest /\
      (rest = EmptyString \/ exists r, rest = String "@" r)).
Proof.
  induction s as [|c s [IHno (rest & IHeq & IHrest)]].
  - split; [apply not_elem_of_nil|]. exists EmptyString. split; [reflexivity|by left].
  - cbn [before_at]. destruct (decide (c = "@"%char)) as [->|Hne].
    + split; [apply not_elem_of_nil|]. exists (String "@" s). split; [reflexivity|].
      right. by exists s.
    + split.
      * cbn [list_ascii_of_string]. intros Hin. apply elem_of_cons in Hin as [Heq|Hin]; [|done].
        by subst.
      * exists rest. split; [|exact IHrest].
        change (String c s = String c (before_at s +:+ rest)). by f_equal.
Qed.

(** X9. When the listener is told of a signed-in user it records the
    profile and clears the auth-loading flag, and leaves the session key,
    the lock and the working set alone.  The display name it records is
    never empty: the user's own when that is non-empty, else the part of the
    e-mail address before [@] when that is non-empty, else ["User"]. *)
Theorem sign_in_event_keeps_session (env : Env) (cu : FirebaseUser.t) (w : World) :
  let w' := (exec env (onAuthStateChanged (Some cu)) w).1 in
  masterKey (app w') = masterKey (app w) /\
  isVaultLocked (app w') = isVaultLocked (app w) /\
  items (app w') = items (app w) /\
  authLoading (app w') = false /\
  exists name,
    user (app w') =
      Some (UserProfile.mk (FirebaseUser.uid cu) (FirebaseUser.email cu) (Some name)) /\
    name <> EmptyString /\
    name = match truthy_string (FirebaseUser.displayName cu) with
           | Some n => n
           | None => default "User" (truthy_string (before_at <$> FirebaseUser.email cu))
           end.
Proof.
  cbv zeta. cbn [onAuthStateChanged bind setState exec fst set_app app masterKey
                 isVaultLocked items authLoading user setUser setAuthLoading].
  repeat split. eexists. split; [reflexivity|]. split; [|reflexivity].
  unfold truthy_string.
  destruct (FirebaseUser.displayName cu) as [n|].
  - destruct (decide (n = EmptyString)); [|done].
    destruct (FirebaseUser.email cu) as [m|]; cbn; [|done].
    destruct (decide (before_at m = EmptyString)); done.
  - destruct (FirebaseUser.email cu) as [m|]; cbn; [|done].
    destruct (decide (before_at m = EmptyString)); done.
Qed.

(** X10. Signing out and in again lands on a locked, empty vault: after the
    listener has seen no user and then a user, there is a user, no session
    key, the vault is locked and the working set is empty, so the unlock
    screen is what [App] shows. *)
Theorem sign_in_after_sign_out_is_locked (env : Env) (cu : FirebaseUser.t) (w : World)
    (toLowerCase : string -> string) (searchTerm : string) (filterType : FilterType) :
  let w' := run_events env [Invoke (fun _ => onAuthStateChanged None);
                            Invoke (fun _ => onAuthStateChanged (Some cu))] w in
  is_Some (user (app w')) /\
  masterKey (app w') = None /\
  isVaultLocked (app w') = true /\
  items (app w') = [] /\
  render toLowerCase (app w') searchTerm filterType = UnlockScreen.
Proof. repeat split. eexists. reflexivity. Qed.

(** X11. [handleLogout] itself changes nothing of the session: user, key,
    lock and working set are as before, whether Firebase [signOut] succeeds
    or fails (the session is discarded by the listener, not by the
    handler).  The call resolves either way and shows one toast, a success
    or an error according to the outcome. *)
Theorem handleLogout_leaves_session (env : Env) (w : World) :
  let run := exec env handleLogout w in
  run.2 = Normal tt /\
  user (app run.1) = user (app w) /\
  masterKey (app run.1) = masterKey (app w) /\
  isVaultLocked (app run.1) = isVaultLocked (app w) /\
  items (app run.1) = items (app w) /\
  toasts (app run.1) =
    toasts (app w) ++
    [match auth_fault env (tick w) with
     | None => toast_at env (S (tick w)) "Logged out successfully" success
     | Some _ => toast_at env (S (tick w)) "Error logging out" error
     end].
Proof.
  cbv zeta. unfold handleLogout.
  rewrite exec_try_catch, exec_bind, exec_await. cbn [settle fst snd].
  destruct (auth_fault env (tick w)); repeat split.
Qed.

(** X12. A toast's timer removes every toast that carries its identifier,
    the clock reading taken when it was shown, and no other: toasts shown at
    the same clock reading go together when the first timer fires.  The
    timer changes nothing else. *)
Theorem toast_timer_removes_by_id (env : Env) (message : string) (type : ToastType)
    (w : World) :
  let w1 := (exec env (showToast message type) w).1 in
  let id := pretty (clock env (tick w)) in
  toasts (app w1) = toasts (app w) ++ [Toast.mk id message type] /\
  exists timer,
    pending w1 = pending w ++ [timer] /\
    forall w2,
      let w3 := (resume env timer w2).1 in
      toasts (app w3) = filter (fun t => Toast.id t <> id) (toasts (app w2)) /\
      items (app w3) = items (app w2) /\
      masterKey (app w3) = masterKey (app w2) /\
      user (app w3) = user (app w2) /\
      firestore w3 = firestore w2.
Proof.
  cbv zeta. split; [reflexivity|]. eexists. split; [reflexivity|].
  intros w2. repeat split.
Qed.

(** ** The working set under save and delete *)

(** X13. The update [handleSaveItem] applies to the working set keeps
    identifiers unique, puts the saved record in, leaves every record with
    another identifier as it was and where it was, and grows the list by one
    exactly when no record had the identifier. *)
Theorem upsertItem_keeps_ids_unique (newItem : VaultItem.t) (prev : list VaultItem.t) :
  NoDup (VaultItem.id <$> prev) ->
  NoDup (VaultItem.id <$> upsertItem newItem prev) /\
  newItem ∈ upsertItem newItem prev /\
  filter (fun v => VaultItem.id v <> VaultItem.id newItem) (upsertItem newItem prev) =
    filter (fun v => VaultItem.id v <> VaultItem.id newItem) prev /\
  length (upsertItem newItem prev) =
    (if decide (VaultItem.id newItem ∈ VaultItem.id <$> prev)
     then length prev else S (length prev)).
Proof.
  intros Hnodup. unfold upsertItem, findIndex.
  destruct (list_find _ prev) as [[idx old]|] eqn:Hfind; cbn [fmap option_fmap option_map fst].
  - apply list_find_Some in Hfind as (Hidx & Hid & _).
    apply bool_decide_eq_true in Hid.
    pose proof (take_drop_middle prev idx old Hidx) as Hsplit.
    assert (Hlen : (idx < length prev)%nat) by (by eapply lookup_lt_Some).
    rewrite insert_take_drop by exact Hlen.
    rewrite <- Hsplit in Hnodup.
    split; [|split; [|split]].
    + rewrite fmap_app, fmap_cons in *. by rewrite <- Hid.
    + apply elem_of_app. right. left.
    + rewrite <- Hsplit at 3. rewrite !filter_app, !filter_cons.
      rewrite decide_False by (intros H; by apply H).
      rewrite decide_False by (intros H; by apply H). reflexivity.
    + rewrite decide_True.
      * rewrite <- Hsplit at 3. rewrite !length_app. reflexivity.
      * rewrite <- Hid. apply list_elem_of_fmap. exists old. split; [reflexivity|].
        by eapply list_elem_of_lookup_2.
  - apply list_find_None in Hfind. rewrite Forall_forall in Hfind.
    assert (Hfresh : VaultItem.id newItem ∉ VaultItem.id <$> prev).
    { intros Hin. apply list_elem_of_fmap in Hin as (old & Heq & Hin).
      apply (Hfind old Hin). by apply bool_decide_eq_true. }
    split; [|split; [|split]].
    + rewrite fmap_cons. by constructor.
    + left.
    + rewrite filter_cons, decide_False by (intros H; by apply H). reflexivity.
    + by rewrite decide_False.
Qed.

Lemma upsertItem_keeps_ids_unique_witness :
  NoDup (VaultItem.id <$> [Sample.login; Sample.note]) /\
  NoDup (VaultItem.id <$> upsertItem Sample.epoch_login [Sample.login; Sample.note]) /\
  length (upsertItem Sample.epoch_login [Sample.login; Sample.note]) = 2%nat.
Proof.
  assert (H : NoDup (VaultItem.id <$> [Sample.login; Sample.note]))
    by (apply (bool_decide_unpack _); vm_compute; exact I).
  destruct (upsertItem_keeps_ids_unique Sample.epoch_login [Sample.login; Sample.note] H)
    as (Hn & _ & _ & Hl).
  split; [exact H|]. split; [exact Hn|]. rewrite Hl. reflexivity.
Defined.

(** X14. [handleDeleteItem] asks first.  When the user cancels, nothing is
    awaited and nothing changes: no store call, no toast.  When the user
    confirms and the store accepts, the document is deleted, every record
    with the identifier leaves the working set and the others stay in
    order, and a success toast is shown; the session is not consulted. *)
Theorem handleDeleteItem_asks_then_deletes (env : Env) (i : string) (w : World) :
  firestore_fault env (S (tick w)) = None ->
  let run := exec env (handleDeleteItem i) w in
  run.2 = Normal tt /\
  if confirm_answer env (tick w)
  then
    (awaits env (handleDeleteItem i) w).*1 = [any_op (DeleteDoc db.collectionName i)] /\
    firestore run.1 = delete i (firestore w) /\
    items (app run.1) = filter (fun v => VaultItem.id v <> i) (items (app w)) /\
    (i ∉ VaultItem.id <$> items (app run.1)) /\
    toasts (app run.1) = toasts (app w) ++ [toast_at env (S (S (tick w))) "Item deleted" success]
  else
    awaits env (handleDeleteItem i) w = [] /\
    run.1 = tock w.
Proof.
  intros Hok run. unfold run, handleDeleteItem.
  assert (Hawaits : forall w0, awaits env (db.deleteItem i) w0 =
                               [(any_op (DeleteDoc db.collectionName i), w0)]).
  { intros w0. unfold db.deleteItem. cbn [await try_catch awaits settle].
    destruct (firestore_fault env (tick w0)); reflexivity. }
  rewrite exec_bind, exec_call, awaits_bind, exec_call. cbn [builtin call awaits app].
  destruct (confirm_answer env (tick w)).
  - rewrite exec_try_catch, awaits_try_catch, awaits_bind, Hawaits, !exec_bind, !exec_deleteItem.
    cbn [tick tock]. rewrite Hok.
    repeat split; try reflexivity.
    cbn [exec bind setState fst app items set_app setItems setToasts showToast call spawn].
    intros Hin. apply list_elem_of_fmap in Hin as (v & -> & Hv).
    apply list_elem_of_filter in Hv as [Hne _]. by apply Hne.
  - repeat split.
Qed.

Lemma handleDeleteItem_asks_then_deletes_witness :
  firestore_fault Sample.plain (S (tick (Sample.unlocked [Sample.login; Sample.note]))) = None /\
  confirm_answer Sample.plain (tick (Sample.unlocked [Sample.login; Sample.note])) = true /\
  items (app (exec Sample.plain (handleDeleteItem "a1")
                (Sample.unlocked [Sample.login; Sample.note])).1) = [Sample.note].
Proof.
  pose proof (handleDeleteItem_asks_then_deletes Sample.plain "a1"
                (Sample.unlocked [Sample.login; Sample.note]) eq_refl) as [_ H].
  split; [reflexivity|]. split; [reflexivity|].
  change (confirm_answer Sample.plain (tick (Sample.unlocked [Sample.login; Sample.note])))
    with true in H.
  destruct H as (_ & _ & Hitems & _). rewrite Hitems. reflexivity.
Defined.

(** X15. When encryption fails in [handleSaveItem] the store is never
    contacted: the call awaits the encryption only, resolves, leaves the
    store, the working set and the key untouched, logs the error and shows
    an error toast. *)
Theorem save_encrypt_failure_skips_store (env : Env) (u : UserProfile.t) (k : CryptoKey)
    (item : PartialVaultItem.t) (w : World) (cause : Error) :
  let newItem := newItem_at env item (tick w) in
  let t := store_tick env item (tick w) in
  let save := handleSaveItem env (Some u) (Some k) item in
  encryptData_value env newItem k (nonce_at env (pred t)) = Thrown cause ->
  (exec env save w).2 = Normal tt /\
  (awaits env save w).*1 =
    [any_op (SubtleEncrypt (nonce_at env (pred t)) k
               (TextEncoder_encode env (JSON_stringify env newItem)))] /\
  firestore (exec env save w).1 = firestore w /\
  items (app (exec env save w).1) = items (app w) /\
  masterKey (app (exec env save w).1) = masterKey (app w) /\
  console (exec env save w).1 = console w ++ [message_of cause] /\
  toasts (app (exec env save w).1) =
    toasts (app w) ++ [toast_at env t "Failed to save item" error].
Proof.
  intros newItem t save Hfail. unfold save, handleSaveItem.
  rewrite awaits_bind, awaits_makeNewItem, exec_bind, exec_makeNewItem.
  fold newItem.
  rewrite awaits_try_catch, exec_try_catch, awaits_bind, exec_bind, exec_encryptData,
    awaits_encryptData.
  change (tick (set_tick (S (stamp_tick env item (tick w))) w)) with (pred t).
  rewrite Hfail. repeat split.
Qed.

Lemma save_encrypt_failure_skips_store_witness :
  encryptData_value Scenario.no_encrypt
    (newItem_at Scenario.no_encrypt Sample.draft 0) Sample.key (nonce_at Scenario.no_encrypt 3)
  = Thrown (mkError "OperationError") /\
  firestore (exec Scenario.no_encrypt
               (handleSaveItem Scenario.no_encrypt (Some Reference.alice) (Some Sample.key)
                  Sample.draft) (Sample.unlocked [Sample.login])).1 = ∅ /\
  items (app (exec Scenario.no_encrypt
                (handleSaveItem Scenario.no_encrypt (Some Reference.alice) (Some Sample.key)
                   Sample.draft) (Sample.unlocked [Sample.login])).1) = [Sample.login].
Proof.
  assert (H : encryptData_value Scenario.no_encrypt
                (newItem_at Scenario.no_encrypt Sample.draft 0) Sample.key
                (nonce_at Scenario.no_encrypt 3) = Thrown (mkError "OperationError"))
    by reflexivity.
  destruct (save_encrypt_failure_skips_store Scenario.no_encrypt Reference.alice Sample.key
              Sample.draft (Sample.unlocked [Sample.login]) _ H) as (_ & _ & Hs & Hi & _).
  split; [exact H|]. split; [exact Hs|exact Hi].
Defined.

(** X16. The record [handleSaveItem] builds is complete whatever the form
    left out: every optional field is defined, the title is never empty
    (["Untitled"] by default) and the type defaults to [LOGIN]; it is built
    without awaiting anything.  With a clock that does not run backwards and
    a [createdAt] that is not in the future, [createdAt <= updatedAt]
    holds for it. *)
Theorem newItem_is_complete_and_ordered (env : Env) (item : PartialVaultItem.t) (w : World) :
  (forall a b, (a <= b)%nat -> clock env a <= clock env b) ->
  (forall c, PartialVaultItem.createdAt item = Some c -> c <= clock env (tick w)) ->
  exists v w',
    exec env (makeNewItem item) w = (w', Normal v) /\
    awaits env (makeNewItem item) w = [] /\
    app w' = app w /\
    VaultItem.title v <> EmptyString /\
    VaultItem.type v = default LOGIN (PartialVaultItem.type item) /\
    is_Some (VaultItem.username v) /\ is_Some (VaultItem.password v) /\
    is_Some (VaultItem.url v) /\ is_Some (VaultItem.notes v) /\
    is_Some (VaultItem.folder v) /\ is_Some (VaultItem.favorite v) /\
    VaultItem.createdAt v <= VaultItem.updatedAt v.
Proof.
  intros Hmono Hpast. eexists. eexists.
  split; [apply exec_makeNewItem|]. split; [apply awaits_makeNewItem|].
  split; [reflexivity|].
  unfold newItem_at. cbn [VaultItem.title VaultItem.type VaultItem.username VaultItem.password
    VaultItem.url VaultItem.notes VaultItem.folder VaultItem.favorite VaultItem.createdAt
    VaultItem.updatedAt].
  split.
  { unfold truthy_string. destruct (PartialVaultItem.title item) as [ti|]; [|done].
    destruct (decide (ti = EmptyString)); done. }
  split; [reflexivity|].
  do 6 (split; [eexists; reflexivity|]).
  unfold stamp_tick, assigned_createdAt, assigned_id, truthy_number.
  destruct (truthy_string (PartialVaultItem.id item)) as [i|];
    destruct (PartialVaultItem.createdAt item) as [c|] eqn:Hc; cbn [fst snd].
  - destruct (decide (c = 0)); cbn [fst snd]; [apply Hmono; lia|].
    specialize (Hpast c eq_refl). reflexivity || lia.
  - apply Hmono. lia.
  - destruct (decide (c = 0)); cbn [fst snd]; [apply Hmono; lia|].
    specialize (Hpast c eq_refl). pose proof (Hmono (tick w) (S (tick w))). lia.
  - apply Hmono. lia.
Qed.

Lemma newItem_is_complete_and_ordered_witness :
  (forall a b, (a <= b)%nat -> clock Sample.plain a <= clock Sample.plain b) /\
  exists v w',
    exec Sample.plain (makeNewItem Sample.draft) Reference.world0 = (w', Normal v) /\
    VaultItem.createdAt v <= VaultItem.updatedAt v.
Proof.
  assert (Hmono : forall a b, (a <= b)%nat -> clock Sample.plain a <= clock Sample.plain b)
    by (intros a b Hab; cbn; lia).
  split; [exact Hmono|].
  destruct (newItem_is_complete_and_ordered Sample.plain Sample.draft Reference.world0 Hmono)
    as (v & w' & He & H).
  - intros c Hc. discriminate.
  - exists v, w'. split; [exact He|]. apply H.
Defined.

(** X17. What is saved loads back.  After a [handleSaveItem] call that
    succeeded, the store holds under the record's identifier an envelope
    that, hydrated with the same key, gives exactly the record now in the
    working set (in an environment whose built-ins are lossless at it). *)
Theorem saved_record_hydrates_back (env : Env) (u : UserProfile.t) (k : CryptoKey)
    (item : PartialVaultItem.t) (w : World) :
  let newItem := newItem_at env item (tick w) in
  let t := store_tick env item (tick w) in
  let save := handleSaveItem env (Some u) (Some k) item in
  builtins_lossless env newItem k (nonce_at env (pred t)) ->
  firestore_fault env t = None ->
  exists envelope,
    firestore (exec env save w).1 !! VaultItem.id newItem = Some envelope /\
    EncryptedVaultItem.ownerId envelope = UserProfile.uid u /\
    EncryptedVaultItem.updatedAt envelope = VaultItem.updatedAt newItem /\
    hydrate_one env k envelope = Some newItem /\
    hydrated env k [envelope] = [newItem] /\
    newItem ∈ items (app (exec env save w).1).
Proof.
  intros newItem t save (Hjson & Hutf8 & Hiv & Haes) Hok.
  destruct (subtle_encrypt env (nonce_at env (pred t)) k
              (TextEncoder_encode env (JSON_stringify env newItem))) as [ct|e] eqn:Hct;
    [|contradiction].
  destruct Haes as [Hdec Hb64].
  set (enc := EncryptedData.mk (bufferToBase64 env ct)
                (bufferToBase64 env (nonce_at env (pred t)))).
  assert (Henc : encryptData_value env newItem k (nonce_at env (pred t)) = Normal enc).
  { unfold encryptData_value. by rewrite Hct. }
  destruct (handleSaveItem_saved env u k item w enc Henc Hok)
    as (_ & _ & _ & Hstore & Hitems & _ & _).
  fold save newItem in Hstore, Hitems.
  assert (Hone : hydrate_one env k (envelope_of u newItem enc) = Some newItem).
  { unfold hydrate_one, envelope_of, decryptData_value, enc.
    cbn [EncryptedVaultItem.data EncryptedVaultItem.iv EncryptedVaultItem.id
         EncryptedData.cipherText EncryptedData.iv].
    rewrite (base64ToBuffer_bufferToBase64 env _ Hiv).
    rewrite (base64ToBuffer_bufferToBase64 env _ Hb64).
    rewrite Hdec, Hutf8, Hjson. by destruct newItem. }
  exists (envelope_of u newItem enc).
  split; [rewrite Hstore; apply lookup_insert_eq|].
  split; [reflexivity|]. split; [reflexivity|]. split; [exact Hone|]. split.
  - unfold hydrated. cbn [omap list_omap]. by rewrite Hone.
  - rewrite Hitems. unfold upsertItem.
    destruct (findIndex _ (items (app w))) as [idx|] eqn:Hfind; [|left].
    unfold findIndex in Hfind.
    destruct (list_find _ (items (app w))) as [[j old]|] eqn:Hj; [|discriminate].
    injection Hfind as <-. apply list_find_Some in Hj as (Hj & _).
    apply list_elem_of_lookup. exists j. apply list_lookup_insert_eq.
    by eapply lookup_lt_Some.
Qed.

Lemma saved_record_hydrates_back_witness :
  builtins_lossless Sample.plain (newItem_at Sample.plain Sample.draft 0) Sample.key
    (nonce_at Sample.plain 3) /\
  firestore_fault Sample.plain 4 = None /\
  exists envelope,
    firestore (exec Sample.plain
                 (handleSaveItem Sample.plain (Some Reference.alice) (Some Sample.key)
                    Sample.draft) (Sample.unlocked [Sample.login])).1 !! "uuid-0"
    = Some envelope /\
    hydrate_one Sample.plain Sample.key envelope
    = Some (newItem_at Sample.plain Sample.draft 0).
Proof.
  assert (H : builtins_lossless Sample.plain (newItem_at Sample.plain Sample.draft 0)
                Sample.key (nonce_at Sample.plain 3))
    by (vm_compute; repeat split; reflexivity).
  split; [exact H|]. split; [reflexivity|].
  destruct (saved_record_hydrates_back Sample.plain Reference.alice Sample.key Sample.draft
              (Sample.unlocked [Sample.login]) H eq_refl) as (envelope & Hs & _ & _ & Hh & _).
  exists envelope. split; [exact Hs|exact Hh].
Defined.

(** X18. Saving a record and then deleting it leaves no trace of it: the
    store has no document under its identifier and the working set is the
    earlier one without the records of that identifier. *)
Theorem save_then_delete_leaves_no_trace (env : Env) (u : UserProfile.t) (k : CryptoKey)
    (item : PartialVaultItem.t) (w : World) (enc : EncryptedData.t) :
  let newItem := newItem_at env item (tick w) in
  let t := store_tick env item (tick w) in
  let w1 := (exec env (handleSaveItem env (Some u) (Some k) item) w).1 in
  encryptData_value env newItem k (nonce_at env (pred t)) = Normal enc ->
  firestore_fault env t = None ->
  confirm_answer env (S (S t)) = true ->
  firestore_fault env (S (S (S t))) = None ->
  let w2 := (exec env (handleDeleteItem (VaultItem.id newItem)) w1).1 in
  firestore w2 !! VaultItem.id newItem = None /\
  firestore w2 = delete (VaultItem.id newItem) (firestore w) /\
  items (app w2) =
    filter (fun v => VaultItem.id v <> VaultItem.id newItem) (items (app w)).
Proof.
  intros newItem t w1 Henc Hok Hyes Hok2 w2.
  destruct (handleSaveItem_saved env u k item w enc Henc Hok)
    as (_ & _ & _ & Hstore & Hitems & _ & _).
  fold newItem w1 in Hstore, Hitems.
  assert (Htick : tick w1 = S (S t)).
  { unfold w1, handleSaveItem.
    rewrite exec_bind, exec_makeNewItem. fold newItem.
    rewrite exec_try_catch, exec_bind, exec_encryptData.
    change (tick (set_tick (S (stamp_tick env item (tick w))) w)) with (pred t).
    rewrite Henc, exec_bind, exec_saveItem.
    change (tick (tock (set_tick (S (stamp_tick env item (tick w))) w))) with t.
    rewrite Hok. reflexivity. }
  destruct (handleDeleteItem_deleted env w1 (VaultItem.id newItem)) as (_ & Hs2 & Hi2).
  { by rewrite Htick. }
  { by rewrite Htick. }
  fold w2 in Hs2, Hi2.
  assert (Hdel : firestore w2 = delete (VaultItem.id newItem) (firestore w)).
  { rewrite Hs2, Hstore. apply delete_insert_eq. }
  split; [rewrite Hdel; apply lookup_delete_eq|]. split; [exact Hdel|].
  rewrite Hi2, Hitems. unfold upsertItem, findIndex.
  destruct (list_find _ (items (app w))) as [[idx old]|] eqn:Hfind;
    cbn [fmap option_fmap option_map fst].
  - apply list_find_Some in Hfind as (Hidx & Hid & _).
    apply bool_decide_eq_true in Hid.
    rewrite insert_take_drop by (by eapply lookup_lt_Some).
    rewrite <- (take_drop_middle _ idx old Hidx) at 3.
    rewrite !filter_app, !filter_cons.
    rewrite decide_False by (intros H; by apply H).
    rewrite decide_False by (intros H; by apply H). reflexivity.
  - rewrite filter_cons, decide_False by (intros H; by apply H). reflexivity.
Qed.

Lemma save_then_delete_leaves_no_trace_witness :
  exists enc,
    encryptData_value Sample.plain (newItem_at Sample.plain Sample.draft 0) Sample.key
      (nonce_at Sample.plain 3) = Normal enc /\
    confirm_answer Sample.plain 6 = true /\
    items (app (exec Sample.plain (handleDeleteItem "uuid-0")
                  (exec Sample.plain
                     (handleSaveItem Sample.plain (Some Reference.alice) (Some Sample.key)
                        Sample.draft) (Sample.unlocked [Sample.login])).1).1)
    = [Sample.login].
Proof.
  eexists.
  assert (Henc : encryptData_value Sample.plain (newItem_at Sample.plain Sample.draft 0)
                   Sample.key (nonce_at Sample.plain 3) = Normal _)
    by (vm_compute; reflexivity).
  split; [exact Henc|]. split; [reflexivity|].
  destruct (save_then_delete_leaves_no_trace Sample.plain Reference.alice Sample.key
              Sample.draft (Sample.unlocked [Sample.login]) _ Henc eq_refl eq_refl eq_refl)
    as (_ & _ & Hitems).
  exact Hitems.
Defined.

(** ** What [App] shows *)

(** X19. Records are on screen only in an unlocked session that is not
    loading: when [App] renders the grid there is a signed-in user, the
    vault is unlocked and no hydration is in progress, and the cards are
    records of the working set, in its order, each matching the search term
    and the type filter.  With no user, the screen is the sign-in form or
    its spinner, whatever the working set holds. *)
Theorem grid_only_when_unlocked (toLowerCase : string -> string) (st : AppState)
    (searchTerm : string) (filterType : FilterType) :
  match render toLowerCase st searchTerm filterType with
  | VaultGrid cards =>
      is_Some (user st) /\ isVaultLocked st = false /\ loadingItems st = false /\
      cards `sublist_of` items st /\
      Forall (fun v => matchesSearch toLowerCase searchTerm v = true /\
                       matchesType filterType v = true) cards
  | VaultSyncing | VaultNoItems => is_Some (user st) /\ isVaultLocked st = false
  | UnlockScreen => is_Some (user st) /\ isVaultLocked st = true
  | AuthScreen | AuthSpinner => user st = None
  end.
Proof.
  unfold render.
  destruct (user st) as [u|] eqn:Hu.
  - rewrite bool_decide_eq_true_2 by (by eexists).
    cbn [negb andb]. rewrite andb_false_r.
    destruct (isVaultLocked st); [split; [by eexists|reflexivity]|].
    destruct (loadingItems st); [split; [by eexists|reflexivity]|].
    destruct (filteredItems toLowerCase st searchTerm filterType) as [|c cards] eqn:Hf;
      [split; [by eexists|reflexivity]|].
    split; [by eexists|]. split; [reflexivity|]. split; [reflexivity|].
    rewrite <- Hf. unfold filteredItems. split.
    + generalize (items st). intros l. induction l as [|x l IH]; [constructor|].
      cbn [List.filter]. destruct (_ && _); [by apply sublist_skip|by apply sublist_cons].
    + apply Forall_forall. intros v Hv. apply list_elem_of_In, filter_In in Hv as [_ Hv].
      by apply andb_true_iff in Hv.
  - rewrite bool_decide_eq_false_2 by (intros [? ?]; discriminate).
    cbn [negb]. destruct (authLoading st); reflexivity.
Qed.

(** ** Base64, and the salt of [unlockVault] *)

Section Base64Facts.
Import Reference.Base64.

Lemma digits_table :
  forallb (fun n => bool_decide (value (digit n) = Some n)
                    && negb (is_whitespace (digit n))
                    && negb (bool_decide (digit n = "="%char)))
          (N.of_nat <$> seq 0 64) = true.
Proof. vm_compute. reflexivity. Qed.

Lemma digit_facts (n : N) :
  (n < 64)%N ->
  value (digit n) = Some n /\ is_whitespace (digit n) = false /\ digit n <> "="%char.
Proof.
  intros Hn. pose proof digits_table as H. rewrite forallb_forall in H.
  specialize (H n). 
  assert (Hin : In n (N.of_nat <$> seq 0 64)).
  { apply list_elem_of_In, list_elem_of_fmap. exists (N.to_nat n). split; [lia|].
    apply elem_of_seq. lia. }
  apply H in Hin. apply andb_true_iff in Hin as [Hin H3]. apply andb_true_iff in Hin as [H1 H2].
  apply bool_decide_eq_true in H1. apply negb_true_iff in H2.
  apply negb_true_iff, bool_decide_eq_false in H3. auto.
Qed.

Lemma byte_of_to_N (b : byte) : Reference.byte_of (Byte.to_N b) = b.
Proof.
  unfold Reference.byte_of. pose proof (Byte.to_N_bounded b).
  rewrite N.mod_small by lia. by rewrite Byte.of_to_N.
Qed.

Lemma bytes_ind3 (P : bytes -> Prop) :
  P [] -> (forall a, P [a]) -> (forall a b, P [a; b]) ->
  (forall a b c rest, P rest -> P (a :: b :: c :: rest)) ->
  forall l, P l.
Proof.
  intros H0 H1 H2 H3.
  fix IH 1. intros [|a [|b [|c rest]]]; [apply H0 | apply H1 | apply H2 | apply H3, IH].
Qed.

Lemma encode_sextets (l : bytes) :
  list_ascii_of_string (encode l) = (digit <$> sextets l) ++ replicate (padding l) "="%char.
Proof.
  induction l as [|a|a b|a b c rest IH] using bytes_ind3; try reflexivity.
  cbn [encode sextets padding list_ascii_of_string fmap list_fmap]. simpl. by rewrite IH.
Qed.

Lemma sextets_bounded (l : bytes) : Forall (fun n => n < 64)%N (sextets l).
Proof.
  induction l as [|a|a b|a b c rest IH] using bytes_ind3; cbn [sextets];
    repeat match goal with
           | |- context [Byte.to_N ?b] =>
               let H := fresh in
               pose proof (Byte.to_N_bounded b) as H;
               generalize dependent (Byte.to_N b); intros
           end;
    repeat (apply List.Forall_cons); try apply List.Forall_nil; try assumption.
  all: zify; Z.to_euclidean_division_equations; lia.
Qed.

Lemma decode_values_sextets (l : bytes) : decode_values (sextets l) = l.
Proof.
  induction l as [|a|a b|a b c rest IH] using bytes_ind3;
    cbn [sextets decode_values]; try reflexivity.
  all: rewrite ?IH; repeat f_equal.
  all: match goal with
       | |- Reference.byte_of _ = ?b =>
           transitivity (Reference.byte_of (Byte.to_N b)); [f_equal | apply byte_of_to_N]
       end.
  all: repeat match goal with
           | |- context [Byte.to_N ?b] =>
               let H := fresh in
               pose proof (Byte.to_N_bounded b) as H;
               generalize dependent (Byte.to_N b); intros
           end.
  all: zify; Z.to_euclidean_division_equations; lia.
Qed.

Lemma sextets_shape (l : bytes) :
  (padding l <= 2 /\ exists q, length (sextets l) + padding l = 4 * q)%nat.
Proof.
  induction l as [|a|a b|a b c rest [IH1 [q IH2]]] using bytes_ind3;
    cbn [sextets padding length].
  - split; [lia | exists 0%nat; lia].
  - split; [lia | exists 1%nat; lia].
  - split; [lia | exists 1%nat; lia].
  - split; [lia | exists (S q); lia].
Qed.

Lemma not_whitespace_kept (vs : list N) (n : nat) :
  Forall (fun v => v < 64)%N vs ->
  filter (fun c => is_whitespace c = false) ((digit <$> vs) ++ replicate n "="%char)
  = (digit <$> vs) ++ replicate n "="%char.
Proof.
  intros Hvs. rewrite filter_app. f_equal.
  - induction Hvs as [|v vs Hv _ IH]; [reflexivity|].
    rewrite fmap_cons, filter_cons, decide_True by apply (digit_facts v Hv).
    by rewrite IH.
  - induction n as [|n IH]; [reflexivity|].
    cbn [replicate]. rewrite filter_cons, decide_True by reflexivity. by rewrite IH.
Qed.

Lemma not_padding_branch {A} (c : ascii) (x y : A) :
  c <> "="%char -> match c with "="%char => x | _ => y end = y.
Proof.
  intros Hc. destruct c as [[] [] [] [] [] [] [] []]; try reflexivity.
  by destruct Hc.
Qed.

Lemma strip_padding_sextets (vs : list N) (n : nat) :
  Forall (fun v => v < 64)%N vs ->
  (n <= 2)%nat ->
  (exists q, length vs + n = 4 * q)%nat ->
  strip_padding ((digit <$> vs) ++ replicate n "="%char) = digit <$> vs.
Proof.
  intros Hvs Hn [q Hq]. unfold strip_padding.
  rewrite decide_True; last first.
  { rewrite length_app, length_fmap, length_replicate, Hq.
    rewrite Nat.mul_comm. apply Nat.Div0.mod_mul. }
  rewrite reverse_app, reverse_replicate.
  destruct vs as [|v vs _] using rev_ind.
  { destruct n as [|[|[|n]]]; simpl in *; try reflexivity; lia. }
  apply Forall_app in Hvs as [_ Hv]. apply Forall_inv in Hv.
  destruct (digit_facts v Hv) as (_ & _ & Hneq).
  rewrite fmap_app, reverse_app. cbn [fmap list_fmap reverse rev_append "++"].
  change (rev_append [] [digit v]) with [digit v]. cbn ["++"].
  destruct n as [|[|[|n]]]; cbn [replicate "++"]; [| | |lia].
  - rewrite not_padding_branch by done. by rewrite app_nil_r.
  - rewrite not_padding_branch by done.
    change (digit v :: reverse (digit <$> vs)) with (reverse [digit v] ++ reverse (digit <$> vs)).
    rewrite <- reverse_app. by rewrite reverse_involutive.
  - change (digit v :: reverse (digit <$> vs)) with (reverse [digit v] ++ reverse (digit <$> vs)).
    rewrite <- reverse_app. by rewrite reverse_involutive.
Qed.

Lemma values_of_digits (vs : list N) :
  Forall (fun v => v < 64)%N vs -> mapM value (digit <$> vs) = Some vs.
Proof.
  intros Hvs. apply mapM_Some. apply Forall2_fmap_l.
  induction Hvs as [|v vs Hv _ IH]; constructor; [apply (digit_facts v Hv) | exact IH].
Qed.

(** Decoding undoes encoding, for every byte sequence. *)
Lemma decode_encode (l : bytes) : decode (encode l) = Some l.
Proof.
  pose proof (sextets_bounded l) as Hb.
  destruct (sextets_shape l) as [Hp [q Hq]].
  unfold decode. rewrite encode_sextets, not_whitespace_kept by exact Hb.
  rewrite strip_padding_sextets by eauto.
  rewrite decide_False; last first.
  { rewrite length_fmap. intros Hmod.
    destruct (padding l) as [|[|[|n]]]; [| | |lia].
    - replace (length (sextets l)) with (q * 4)%nat in Hmod by lia.
      by rewrite Nat.Div0.mod_mul in Hmod.
    - replace (length (sextets l)) with (3 + (q - 1) * 4)%nat in Hmod by lia.
      by rewrite Nat.Div0.mod_add in Hmod.
    - replace (length (sextets l)) with (2 + (q - 1) * 4)%nat in Hmod by lia.
      by rewrite Nat.Div0.mod_add in Hmod. }
  rewrite values_of_digits by exact Hb. cbn [fmap option_fmap option_map].
  by rewrite decode_values_sextets.
Qed.

(** The first 24 digits of an encoding are the encoding of the first 18
    bytes. *)
Lemma encode_first_24 (l : bytes) : substring 0 24 (encode l) = encode (take 18 l).
Proof.
  do 18 (destruct l as [|? l]; [reflexivity|]).
  cbn [encode substring]. rewrite !firstn_cons, take_0. by destruct (encode l).
Qed.

Lemma list_byte_of_string_app (s1 s2 : string) :
  list_byte_of_string (s1 +:+ s2) = list_byte_of_string s1 ++ list_byte_of_string s2.
Proof.
  unfold list_byte_of_string. rewrite <- map_app. f_equal.
  induction s1 as [|c s1 IH]; [reflexivity|].
  change (c :: list_ascii_of_string (s1 +:+ s2)
          = c :: (list_ascii_of_string s1 ++ list_ascii_of_string s2)).
  by f_equal.
Qed.

Lemma list_byte_of_substring (n : nat) (s : string) :
  list_byte_of_string (substring 0 n s) = take n (list_byte_of_string s).
Proof.
  unfold list_byte_of_string. revert s.
  induction n as [|n IH]; intros [|c s]; try reflexivity.
  cbn [substring list_ascii_of_string map take firstn]. by rewrite IH.
Qed.

Lemma length_list_byte_of_string (s : string) :
  length (list_byte_of_string s) = String.length s.
Proof.
  unfold list_byte_of_string. rewrite length_map.
  induction s as [|c s IH]; [reflexivity|]. cbn. by rewrite IH.
Qed.

(** What [atob] returns on the first 24 digits of [btoa s]. *)
Lemma atob_first_24_btoa (s : string) :
  Reference.atob (substring 0 24 (Reference.btoa s))
  = Normal (string_of_list_byte (take 18 (list_byte_of_string s))).
Proof.
  unfold Reference.btoa, Reference.atob. by rewrite encode_first_24, decode_encode.
Qed.
End Base64Facts.

(** X20. With the browser's standard base64 for [btoa] and [atob], the
    salt [unlockVault] hands to [deriveKey] always decodes, and it is the
    first 18 bytes of the uid followed by [_salt_fixed_123]: the 24 base64
    digits kept by [substring(0, 24)] encode exactly 18 bytes. *)
Theorem unlock_salt_is_first_18_bytes (env : Env) (u : UserProfile.t) :
  btoa env = Reference.btoa ->
  atob env = Reference.atob ->
  deterministicSalt env u
  = Normal (take 18 (list_byte_of_string (UserProfile.uid u)
                     ++ list_byte_of_string "_salt_fixed_123")).
Proof.
  intros Hbtoa Hatob.
  unfold deterministicSalt, stringToSalt, base64ToBuffer. rewrite Hbtoa, Hatob.
  rewrite atob_first_24_btoa, list_byte_of_string_of_list_byte.
  by rewrite list_byte_of_string_app.
Qed.

Lemma unlock_salt_is_first_18_bytes_witness :
  deterministicSalt Sample.plain Reference.alice
  = Normal (take 18 (list_byte_of_string "alice" ++ list_byte_of_string "_salt_fixed_123")).
Proof.
  apply (unlock_salt_is_first_18_bytes Sample.plain Reference.alice); reflexivity.
Defined.

(** X21. With standard base64, a uid of 18 characters or more determines
    the salt by its first 18 characters alone: the fixed suffix plays no
    part, and two accounts whose uids agree on these characters derive the
    same key from the same password. *)
Theorem long_uids_share_salt_by_prefix (env : Env) (u1 u2 : UserProfile.t)
    (password : string) :
  btoa env = Reference.btoa ->
  atob env = Reference.atob ->
  (18 <= String.length (UserProfile.uid u1))%nat ->
  substring 0 18 (UserProfile.uid u1) = substring 0 18 (UserProfile.uid u2) ->
  deterministicSalt env u1
  = Normal (list_byte_of_string (substring 0 18 (UserProfile.uid u1))) /\
  deterministicSalt env u2 = deterministicSalt env u1 /\
  derivation_outcome env u2 password = derivation_outcome env u1 password.
Proof.
  intros Hbtoa Hatob Hlong Hsame.
  assert (Hsalt : forall u, (18 <= String.length (UserProfile.uid u))%nat ->
            deterministicSalt env u
            = Normal (list_byte_of_string (substring 0 18 (UserProfile.uid u)))).
  { intros u Hu.
    unfold deterministicSalt, stringToSalt, base64ToBuffer. rewrite Hbtoa, Hatob.
    rewrite atob_first_24_btoa, list_byte_of_string_of_list_byte, list_byte_of_string_app.
    rewrite take_app_le by (rewrite length_list_byte_of_string; lia).
    by rewrite list_byte_of_substring. }
  assert (Hlong2 : (18 <= String.length (UserProfile.uid u2))%nat).
  { apply (f_equal list_byte_of_string) in Hsame.
    apply (f_equal length) in Hsame.
    rewrite !list_byte_of_substring, !length_take, !length_list_byte_of_string in Hsame.
    lia. }
  assert (Heq : deterministicSalt env u2 = deterministicSalt env u1).
  { rewrite !Hsalt by assumption. by rewrite Hsame. }
  split; [by apply Hsalt|]. split; [exact Heq|].
  unfold derivation_outcome. by rewrite Heq.
Qed.

Lemma long_uids_share_salt_by_prefix_witness :
  UserProfile.uid (UserProfile.mk "Xq7LmP2sT9vKc4RbJ1AAAAAAAAAA" None None)
  <> UserProfile.uid (UserProfile.mk "Xq7LmP2sT9vKc4RbJ1BBBBBBBBBB" None None) /\
  derivation_outcome Sample.plain (UserProfile.mk "Xq7LmP2sT9vKc4RbJ1BBBBBBBBBB" None None) "pw"
  = derivation_outcome Sample.plain (UserProfile.mk "Xq7LmP2sT9vKc4RbJ1AAAAAAAAAA" None None) "pw".
Proof.
  split; [discriminate|].
  apply (long_uids_share_salt_by_prefix Sample.plain
           (UserProfile.mk "Xq7LmP2sT9vKc4RbJ1AAAAAAAAAA" None None)
           (UserProfile.mk "Xq7LmP2sT9vKc4RbJ1BBBBBBBBBB" None None) "pw");
    [reflexivity | reflexivity | simpl; lia | reflexivity].
Defined.


(** ** The remote store *)

(** X22. When the store rejects, each of [saveItem], [getItems] and
    [deleteItem] logs one line of its own and rejects with the store's
    error, unchanged; the documents are left as they were. *)
Theorem db_failure_passes_through (env : Env) (w : World) (err : Error)
    (e : EncryptedVaultItem.t) (uid i : string) :
  firestore_fault env (tick w) = Some err ->
  let saved := exec env (db.saveItem e) w in
  let fetched := exec env (db.getItems uid) w in
  let deleted := exec env (db.deleteItem i) w in
  (saved.2 = Thrown err /\ fetched.2 = Thrown err /\ deleted.2 = Thrown err) /\
  (firestore saved.1 = firestore w /\ firestore fetched.1 = firestore w
   /\ firestore deleted.1 = firestore w) /\
  console saved.1 = console w ++ ["Error saving item to Firestore:"] /\
  console fetched.1 = console w ++ ["Error fetching items from Firestore:"] /\
  console deleted.1 = console w ++ ["Error deleting item from Firestore:"].
Proof.
  intros Hfault. cbn zeta.
  unfold db.saveItem, db.getItems, db.deleteItem.
  cbn [await bind try_catch exec settle]. rewrite Hfault.
  repeat split.
Qed.

Lemma db_failure_passes_through_witness :
  (exec Sample.outage (db.saveItem (Sample.sealed 0 Sample.login)) Reference.world0).2
  = Thrown (mkError "unavailable").
Proof.
  apply (db_failure_passes_through Sample.outage Reference.world0 (mkError "unavailable")
           (Sample.sealed 0 Sample.login) "alice" "login-1").
  reflexivity.
Defined.

(** ** Hydration of plaintexts of any shape *)

Section SortByStamp.
Context {I : Type}.
Variable stamp : I -> option Z.
Variable compare : I -> I -> Z.
Hypothesis compare_stamps :
  forall a b x y, stamp a = Some x -> stamp b = Some y -> compare a b = y - x.




End SortByStamp.

Section AnyPlaintextRuns.
Variable env : Env.
Context {D I : Type}.
Variable JSON_parse_any : string -> Completion D.
Variable spread_id : D -> string -> I.
Variable compare : I -> I -> Z.

End AnyPlaintextRuns.


